(** * Rate-limit connection wrappers (limiter/wrapper/conn.go)

    A shallow embedding of the Go package [wrapper]: the stream wrapper
    [serverConn], the datagram wrapper [packetConn] and the UDP-capability
    wrapper [udpConn], with the properties of their read and write paths.

    Conventions of the embedding.
    - A Go [int] is a [Z]; lengths never approach the 64-bit range, so no
      wrap-around is written out.
    - A [[]byte] is a [list byte]; a slice expression is [slice], which is
      [None] where Go panics (the capacity of a slice is taken to be its
      length).  A callee that fills a caller's slice returns the new
      contents of that slice.
    - The state of an underlying connection is a value of a type carrying a
      [NetConn] or [PacketConn] instance (the Go interface); a method
      returns the next state next to its results.
    - The external limiter subsystem has a state of type [LW]; a
      [Limiter] is a handle whose [Wait] transforms that state.
    - A nil [net.Addr] is [None]; calling [String] on it panics. *)

From Stdlib Require Import Ascii String.
From Stdlib Require Import ZArith List Bool Lia.
From Stdlib Require Import Init.Byte.
Import ListNotations.
Local Open Scope Z_scope.

(** ** Go values *)

Definition bytes := list byte.

Definition len {A : Type} (s : list A) : Z := Z.of_nat (List.length s).

(** [b[lo:hi]]; [None] is the run-time panic on bad bounds. *)
Definition slice (b : bytes) (lo hi : Z) : option bytes :=
  if (0 <=? lo) && (lo <=? hi) && (hi <=? len b)
  then Some (firstn (Z.to_nat (hi - lo)) (skipn (Z.to_nat lo) b))
  else None.

(** The builtin [copy(dst, src)]: the count and the new contents of [dst]. *)
Definition copy (dst src : bytes) : Z * bytes :=
  let n := Nat.min (List.length dst) (List.length src) in
  (Z.of_nat n, firstn n src ++ skipn n dst).

Inductive error : Type :=
| errUnsupport              (* errors.New("unsupported operation") *)
| io_EOF                    (* io.EOF *)
| io_error (msg : string).  (* an error value of an underlying connection *)

Inductive outcome (A : Type) : Type :=
| Return (a : A)
| Panic.
Arguments Return {A} a.
Arguments Panic {A}.

(** [net.Addr] and [*net.UDPAddr], seen through their methods. *)
Record Addr := { addr_Network : string; addr_String : string }.
Record UDPAddr := { udp_String : string }.

(** ** bytes.Buffer (Go standard library), the unread portion only *)

Definition Buffer := bytes.

Definition Buffer_Len (buf : Buffer) : Z := len buf.

(** [Read] on an empty buffer resets it and reports [io.EOF] unless [p] is
    empty; otherwise it copies as much as fits and advances. *)
Definition Buffer_Read (buf : Buffer) (p : bytes)
  : Z * option error * bytes * Buffer :=
  match buf with
  | [] => if len p =? 0 then (0, None, p, []) else (0, Some io_EOF, p, [])
  | _ :: _ =>
      let '(n, p') := copy p buf in
      (n, None, p', skipn (Z.to_nat n) buf)
  end.

(** [Write] appends and always reports a nil error. *)
Definition Buffer_Write (buf : Buffer) (p : bytes)
  : Z * option error * Buffer :=
  (len p, None, buf ++ p).

(** ** Package limiter (external): Limiter and RateLimiter *)

Module limiter.
Section Contracts.
Variable LW : Type.

(** [Wait(ctx, n) int] *)
Record Limiter := { Wait : LW -> Z -> Z * LW }.

(** [In(key) Limiter], [Out(key) Limiter]; [None] is the nil Limiter. *)
Record RateLimiter := {
  In : string -> option Limiter;
  Out : string -> option Limiter }.

(** The contract of the data model: [0 <= granted <= requested]. *)
Definition within_request (l : Limiter) : Prop :=
  forall w n, 0 <= n -> 0 <= fst (Wait l w n) <= n.

(** A limiter that hands out at least one token for a request of at
    least one. *)
Definition makes_progress (l : Limiter) : Prop :=
  forall w n, 0 < n -> 0 < fst (Wait l w n).
End Contracts.
Arguments Wait {LW} _ _ _.
Arguments In {LW} _ _.
Arguments Out {LW} _ _.
Arguments within_request {LW} _.
Arguments makes_progress {LW} _.
End limiter.

(** ** The wrapped interfaces *)

(** [net.Conn]: [Read] returns the count, the error and the new contents
    of the caller's slice; [RemoteAddr] may return a nil address. *)
Class NetConn (C : Type) := {
  conn_Read : C -> bytes -> Z * option error * bytes * C;
  conn_Write : C -> bytes -> Z * option error * C;
  conn_RemoteAddr : C -> option Addr }.

(** [syscall.RawConn], an opaque handle. *)
Record RawConn := { rawconn_fd : Z }.

(** Modelled from the spec: the optional interfaces [xnet.SetBuffer],
    [udp.ReadUDP] and [udp.WriteUDP] are declared in internal/net, outside
    the sources at hand; their method sets are the calls conn.go makes on
    them (buffer sizing, UDP-typed read and write with address and
    out-of-band data). *)
Record SetBuffer (P : Type) := {
  SetReadBuffer : P -> Z -> option error * P;
  SetWriteBuffer : P -> Z -> option error * P }.
Arguments SetReadBuffer {P} _ _ _.
Arguments SetWriteBuffer {P} _ _ _.

Record ReadUDP (P : Type) := {
  ReadFromUDP : P -> bytes -> Z * option UDPAddr * option error * bytes * P;
  ReadMsgUDP : P -> bytes -> bytes
               -> Z * Z * Z * option UDPAddr * option error * bytes * bytes * P }.
Arguments ReadFromUDP {P} _ _ _.
Arguments ReadMsgUDP {P} _ _ _ _.

Record WriteUDP (P : Type) := {
  WriteToUDP : P -> bytes -> option UDPAddr -> Z * option error * P;
  WriteMsgUDP : P -> bytes -> bytes -> option UDPAddr
                -> Z * Z * option error * P }.
Arguments WriteToUDP {P} _ _ _ _.
Arguments WriteMsgUDP {P} _ _ _ _ _.

(** [net.PacketConn] together with the outcome of each type assertion
    conn.go performs on it: [Some] holds the methods of the optional
    interface, [None] is a failed assertion.  The dynamic type of an
    interface value is fixed, so the assertions belong to the type. *)
Class PacketConn (P : Type) := {
  pconn_ReadFrom : P -> bytes -> Z * option Addr * option error * bytes * P;
  pconn_WriteTo : P -> bytes -> option Addr -> Z * option error * P;
  as_RemoteAddr : option (P -> option Addr);          (* xnet.RemoteAddr *)
  as_SetBuffer : option (SetBuffer P);                (* xnet.SetBuffer *)
  as_Reader : option (P -> bytes -> Z * option error * bytes * P); (* io.Reader *)
  as_Writer : option (P -> bytes -> Z * option error * P);         (* io.Writer *)
  as_ReadUDP : option (ReadUDP P);                    (* udp.ReadUDP *)
  as_WriteUDP : option (WriteUDP P);                  (* udp.WriteUDP *)
  as_SyscallConn : option (P -> option RawConn * option error * P);
                                                      (* xnet.SyscallConn *)
  as_SetDSCP : option (P -> Z -> option error * P) }. (* xnet.SetDSCP *)

(** The [String] method of a [net.UDPAddr] pointer, which answers for a
    nil receiver. *)
Definition UDPAddr_String (a : option UDPAddr) : string :=
  match a with
  | None => "<nil>"%string
  | Some a => udp_String a
  end.

(** ** serverConn *)

Section Stream.
Context {LW : Type} {C : Type} `{NetConn C}.
Variable SplitHostPort : string -> string * string * option error.

Record serverConn := {
  sc_Conn : C;
  sc_rbuf : Buffer;
  sc_raddr : string;
  sc_rlimiter : option (limiter.RateLimiter LW) }.

Definition with_Conn (c : serverConn) (conn : C) : serverConn :=
  {| sc_Conn := conn; sc_rbuf := sc_rbuf c;
     sc_raddr := sc_raddr c; sc_rlimiter := sc_rlimiter c |}.

Definition with_rbuf (c : serverConn) (buf : Buffer) : serverConn :=
  {| sc_Conn := sc_Conn c; sc_rbuf := buf;
     sc_raddr := sc_raddr c; sc_rlimiter := sc_rlimiter c |}.

(** The value of the interface type [net.Conn] that [WrapConn] returns:
    the argument itself or a pointer to a fresh [serverConn]. *)
Inductive Conn_value : Type :=
| Raw (c : C)
| Wrapped (s : serverConn).

Definition WrapConn (rlimiter : option (limiter.RateLimiter LW)) (c : C)
  : outcome Conn_value :=
  match rlimiter with
  | None => Return (Raw c)
  | Some rl =>
      match conn_RemoteAddr c with
      | None => Panic
      | Some a =>
          let '(host, _, _) := SplitHostPort (addr_String a) in
          Return (Wrapped {| sc_Conn := c; sc_rbuf := []; sc_raddr := host;
                             sc_rlimiter := Some rl |})
      end
  end.

(** [c.rlimiter.In(c.raddr)], nil when [c.rlimiter] is nil. *)
Definition sc_In (c : serverConn) : option (limiter.Limiter LW) :=
  match sc_rlimiter c with
  | None => None
  | Some rl => limiter.In rl (sc_raddr c)
  end.

Definition sc_Out (c : serverConn) : option (limiter.Limiter LW) :=
  match sc_rlimiter c with
  | None => None
  | Some rl => limiter.Out rl (sc_raddr c)
  end.

(** [func (c *serverConn) Read(b []byte) (n int, err error)];
    the result carries the new contents of [b]. *)
Definition serverConn_Read (c : serverConn) (w : LW) (b : bytes)
  : outcome (Z * option error * bytes * serverConn * LW) :=
  match sc_In c with
  | None =>
      let '(n, err, b', conn) := conn_Read (sc_Conn c) b in
      Return (n, err, b', with_Conn c conn, w)
  | Some limiter =>
      if 0 <? Buffer_Len (sc_rbuf c) then
        let burst := len b in
        let burst :=
          if Buffer_Len (sc_rbuf c) <? burst
          then Buffer_Len (sc_rbuf c) else burst in
        let '(lim, w') := limiter.Wait limiter w burst in
        match slice b 0 lim with
        | None => Panic
        | Some p =>
            let '(n, err, p', buf) := Buffer_Read (sc_rbuf c) p in
            Return (n, err, p' ++ skipn (Z.to_nat lim) b,
                    with_rbuf c buf, w')
        end
      else
        let '(nn, err, b', conn) := conn_Read (sc_Conn c) b in
        let c := with_Conn c conn in
        match err with
        | Some e => Return (nn, Some e, b', c, w)
        | None =>
            let '(n, w') := limiter.Wait limiter w nn in
            if n <? nn then
              match slice b' n nn with
              | None => Panic
              | Some staged =>
                  let '(_, err, buf) := Buffer_Write (sc_rbuf c) staged in
                  match err with
                  | Some e => Return (0, Some e, b', with_rbuf c buf, w')
                  | None => Return (n, None, b', with_rbuf c buf, w')
                  end
              end
            else Return (n, None, b', c, w')
        end
  end.

(** The loop of [Write]: [n] is the running total, [None] is a loop
    still running when the fuel is spent. *)
Fixpoint Write_loop (fuel : nat) (limiter : limiter.Limiter LW)
    (conn : C) (w : LW) (b : bytes) (n : Z)
  : option (outcome (Z * option error * C * LW)) :=
  if 0 <? len b then
    match fuel with
    | O => None
    | S fuel =>
        let '(granted, w) := limiter.Wait limiter w (len b) in
        match slice b 0 granted with
        | None => Some Panic
        | Some chunk =>
            let '(nn, err, conn) := conn_Write conn chunk in
            let n := n + nn in
            match err with
            | Some e => Some (Return (n, Some e, conn, w))
            | None =>
                match slice b nn (len b) with
                | None => Some Panic
                | Some b => Write_loop fuel limiter conn w b n
                end
            end
        end
    end
  else Some (Return (n, None, conn, w)).

(** [func (c *serverConn) Write(b []byte) (n int, err error)] *)
Definition serverConn_Write (fuel : nat) (c : serverConn) (w : LW)
    (b : bytes)
  : option (outcome (Z * option error * serverConn * LW)) :=
  match sc_Out c with
  | None =>
      let '(n, err, conn) := conn_Write (sc_Conn c) b in
      Some (Return (n, err, with_Conn c conn, w))
  | Some limiter =>
      match Write_loop fuel limiter (sc_Conn c) w b 0 with
      | None => None
      | Some Panic => Some Panic
      | Some (Return (n, err, conn, w)) =>
          Some (Return (n, err, with_Conn c conn, w))
      end
  end.

(** A caller issuing successive [Read]s with the given buffers; the
    chunk a call delivers is [b[:n]]. *)
Fixpoint Read_calls (c : serverConn) (w : LW) (bufs : list bytes)
  : outcome (list bytes * serverConn * LW) :=
  match bufs with
  | [] => Return ([], c, w)
  | b :: bufs =>
      match serverConn_Read c w b with
      | Panic => Panic
      | Return (n, _, b', c, w) =>
          match Read_calls c w bufs with
          | Panic => Panic
          | Return (chunks, c, w) =>
              Return (firstn (Z.to_nat n) b' :: chunks, c, w)
          end
      end
  end.
(** What [net.Conn] promises of [Read]: the count lies within the slice,
    whose length does not change. *)
Definition Read_in_bounds : Prop :=
  forall (c : C) b n err b' c',
    conn_Read c b = (n, err, b', c') -> 0 <= n <= len b /\ len b' = len b.

(** [pending c] is the byte sequence the connection in state [c] has yet
    to hand out: a [Read] hands out its first [n] bytes and keeps the
    rest. *)
Definition delivers_stream (pending : C -> bytes) : Prop :=
  forall (c : C) b n err b' c',
    conn_Read c b = (n, err, b', c') ->
    pending c = firstn (Z.to_nat n) b' ++ pending c'.

(** A [Read] into a non-empty slice hands out at least one byte while
    bytes are pending. *)
Definition stream_progress (pending : C -> bytes) : Prop :=
  forall (c : C) b n err b' c',
    conn_Read c b = (n, err, b', c') ->
    pending c <> [] -> 0 < len b -> 0 < n.

(** What [io.Writer] promises of [Write]: the count lies within the slice,
    and a short write comes with an error. *)
Definition Write_in_bounds : Prop :=
  forall (c : C) p nn err c',
    conn_Write c p = (nn, err, c') ->
    0 <= nn <= len p /\ (err = None -> nn = len p).

(** [issued] observes every slice passed to the connection's [Write]. *)
Definition records_writes (issued : C -> list bytes) : Prop :=
  forall (c : C) p nn err c',
    conn_Write c p = (nn, err, c') -> issued c' = issued c ++ [p].

(** The sum of the lengths of the slices in [chunks]. *)
Definition total_len (chunks : list bytes) : Z :=
  fold_right (fun chunk acc => len chunk + acc) 0 chunks.

(** [paced l w b chunks]: each chunk is the prefix of what remains of [b]
    that the next [Wait] of [l] grants, starting from limiter state [w]. *)
Inductive paced (l : limiter.Limiter LW) : LW -> bytes -> list bytes -> Prop :=
| paced_nil w b : paced l w b []
| paced_cons w b granted w' chunks :
    limiter.Wait l w (len b) = (granted, w') ->
    paced l w' (skipn (Z.to_nat granted) b) chunks ->
    paced l w b (firstn (Z.to_nat granted) b :: chunks).
End Stream.

(** ** packetConn and udpConn *)

Section Datagram.
Context {LW : Type} {P : Type} `{PacketConn P}.
Variable SplitHostPort : string -> string * string * option error.

Record packetConn := {
  pc_PacketConn : P;
  pc_rlimiter : option (limiter.RateLimiter LW) }.

Inductive PacketConn_value : Type :=
| RawPacket (pc : P)
| WrappedPacket (c : packetConn).

Definition WrapPacketConn (rlimiter : option (limiter.RateLimiter LW))
    (pc : P) : PacketConn_value :=
  match rlimiter with
  | None => RawPacket pc
  | Some rl => WrappedPacket {| pc_PacketConn := pc; pc_rlimiter := Some rl |}
  end.

(** [c.rlimiter.In(host)], nil when [c.rlimiter] is nil. *)
Definition rl_In (rlimiter : option (limiter.RateLimiter LW)) (host : string)
  : option (limiter.Limiter LW) :=
  match rlimiter with
  | None => None
  | Some rl => limiter.In rl host
  end.

(** [func (c *packetConn) ReadFrom(p []byte) (n int, addr net.Addr, err error)];
    [None] is a loop still running when the fuel is spent. *)
Fixpoint packetConn_ReadFrom (fuel : nat) (c : packetConn) (w : LW)
    (p : bytes)
  : option (outcome (Z * option Addr * option error * bytes * packetConn * LW)) :=
  match fuel with
  | O => None
  | S fuel =>
      let '(n, addr, err, p, pc) := pconn_ReadFrom (pc_PacketConn c) p in
      let c := {| pc_PacketConn := pc; pc_rlimiter := pc_rlimiter c |} in
      match err with
      | Some e => Some (Return (n, addr, Some e, p, c, w))
      | None =>
          match addr with
          | None => Some Panic
          | Some a =>
              let '(host, _, _) := SplitHostPort (addr_String a) in
              match rl_In (pc_rlimiter c) host with
              | None => Some (Return (n, addr, None, p, c, w))
              | Some limiter =>
                  let '(granted, w) := limiter.Wait limiter w n in
                  if granted <? n then packetConn_ReadFrom fuel c w p
                  else Some (Return (n, addr, None, p, c, w))
              end
          end
      end
  end.

(** [func (c *packetConn) WriteTo(p []byte, addr net.Addr) (n int, err error)] *)
Definition packetConn_WriteTo (c : packetConn) (w : LW) (p : bytes)
    (addr : option Addr)
  : outcome (Z * option error * packetConn * LW) :=
  let direct w :=
    let '(n, err, pc) := pconn_WriteTo (pc_PacketConn c) p addr in
    Return (n, err, {| pc_PacketConn := pc; pc_rlimiter := pc_rlimiter c |}, w)
  in
  match pc_rlimiter c with
  | None => direct w
  | Some rl =>
      match addr with
      | None => Panic
      | Some a =>
          let '(host, _, _) := SplitHostPort (addr_String a) in
          match limiter.Out rl host with
          | None => direct w
          | Some limiter =>
              let '(granted, w) := limiter.Wait limiter w (len p) in
              if granted <? len p then Return (len p, None, c, w)
              else direct w
          end
      end
  end.

Record udpConn := {
  uc_PacketConn : P;
  uc_rlimiter : option (limiter.RateLimiter LW) }.

Definition uc_with (c : udpConn) (pc : P) : udpConn :=
  {| uc_PacketConn := pc; uc_rlimiter := uc_rlimiter c |}.

Definition WrapUDPConn (rlimiter : option (limiter.RateLimiter LW)) (pc : P)
  : udpConn :=
  {| uc_PacketConn := pc; uc_rlimiter := rlimiter |}.

(** [func (c *udpConn) RemoteAddr() net.Addr] *)
Definition udpConn_RemoteAddr (c : udpConn) : option Addr :=
  match as_RemoteAddr with
  | Some nc => nc (uc_PacketConn c)
  | None => None
  end.

Definition udpConn_SetReadBuffer (c : udpConn) (n : Z)
  : option error * udpConn :=
  match as_SetBuffer with
  | Some nc =>
      let '(err, pc) := SetReadBuffer nc (uc_PacketConn c) n in
      (err, uc_with c pc)
  | None => (Some errUnsupport, c)
  end.

Definition udpConn_SetWriteBuffer (c : udpConn) (n : Z)
  : option error * udpConn :=
  match as_SetBuffer with
  | Some nc =>
      let '(err, pc) := SetWriteBuffer nc (uc_PacketConn c) n in
      (err, uc_with c pc)
  | None => (Some errUnsupport, c)
  end.

Definition udpConn_Read (c : udpConn) (b : bytes)
  : Z * option error * bytes * udpConn :=
  match as_Reader with
  | Some nc =>
      let '(n, err, b, pc) := nc (uc_PacketConn c) b in
      (n, err, b, uc_with c pc)
  | None => (0, Some errUnsupport, b, c)
  end.

Fixpoint udpConn_ReadFrom (fuel : nat) (c : udpConn) (w : LW) (p : bytes)
  : option (outcome (Z * option Addr * option error * bytes * udpConn * LW)) :=
  match fuel with
  | O => None
  | S fuel =>
      let '(n, addr, err, p, pc) := pconn_ReadFrom (uc_PacketConn c) p in
      let c := uc_with c pc in
      match err with
      | Some e => Some (Return (n, addr, Some e, p, c, w))
      | None =>
          match addr with
          | None => Some Panic
          | Some a =>
              let '(host, _, _) := SplitHostPort (addr_String a) in
              match rl_In (uc_rlimiter c) host with
              | None => Some (Return (n, addr, None, p, c, w))
              | Some limiter =>
                  let '(granted, w) := limiter.Wait limiter w n in
                  if granted <? n then udpConn_ReadFrom fuel c w p
                  else Some (Return (n, addr, None, p, c, w))
              end
          end
      end
  end.

(** The loop of [ReadFromUDP], entered once the assertion to
    [udp.ReadUDP] has succeeded with [nc]. *)
Fixpoint ReadFromUDP_loop (fuel : nat) (nc : ReadUDP P) (c : udpConn)
    (w : LW) (b : bytes)
  : option (Z * option UDPAddr * option error * bytes * udpConn * LW) :=
  match fuel with
  | O => None
  | S fuel =>
      let '(n, addr, err, b, pc) := ReadFromUDP nc (uc_PacketConn c) b in
      let c := uc_with c pc in
      match err with
      | Some e => Some (n, addr, Some e, b, c, w)
      | None =>
          let '(host, _, _) := SplitHostPort (UDPAddr_String addr) in
          match rl_In (uc_rlimiter c) host with
          | None => Some (n, addr, None, b, c, w)
          | Some limiter =>
              let '(granted, w) := limiter.Wait limiter w n in
              if granted <? n then ReadFromUDP_loop fuel nc c w b
              else Some (n, addr, None, b, c, w)
          end
      end
  end.

Definition udpConn_ReadFromUDP (fuel : nat) (c : udpConn) (w : LW) (b : bytes)
  : option (Z * option UDPAddr * option error * bytes * udpConn * LW) :=
  match as_ReadUDP with
  | Some nc => ReadFromUDP_loop fuel nc c w b
  | None => Some (0, None, Some errUnsupport, b, c, w)
  end.

Fixpoint ReadMsgUDP_loop (fuel : nat) (nc : ReadUDP P) (c : udpConn)
    (w : LW) (b oob : bytes)
  : option (Z * Z * Z * option UDPAddr * option error * bytes * bytes
            * udpConn * LW) :=
  match fuel with
  | O => None
  | S fuel =>
      let '(n, oobn, flags, addr, err, b, oob, pc) :=
        ReadMsgUDP nc (uc_PacketConn c) b oob in
      let c := uc_with c pc in
      match err with
      | Some e => Some (n, oobn, flags, addr, Some e, b, oob, c, w)
      | None =>
          let '(host, _, _) := SplitHostPort (UDPAddr_String addr) in
          match rl_In (uc_rlimiter c) host with
          | None => Some (n, oobn, flags, addr, None, b, oob, c, w)
          | Some limiter =>
              let '(granted, w) := limiter.Wait limiter w n in
              if granted <? n then ReadMsgUDP_loop fuel nc c w b oob
              else Some (n, oobn, flags, addr, None, b, oob, c, w)
          end
      end
  end.

Definition udpConn_ReadMsgUDP (fuel : nat) (c : udpConn) (w : LW)
    (b oob : bytes)
  : option (Z * Z * Z * option UDPAddr * option error * bytes * bytes
            * udpConn * LW) :=
  match as_ReadUDP with
  | Some nc => ReadMsgUDP_loop fuel nc c w b oob
  | None => Some (0, 0, 0, None, Some errUnsupport, b, oob, c, w)
  end.

Definition udpConn_Write (c : udpConn) (b : bytes)
  : Z * option error * udpConn :=
  match as_Writer with
  | Some nc =>
      let '(n, err, pc) := nc (uc_PacketConn c) b in
      (n, err, uc_with c pc)
  | None => (0, Some errUnsupport, c)
  end.

Definition udpConn_WriteTo (c : udpConn) (w : LW) (p : bytes)
    (addr : option Addr)
  : outcome (Z * option error * udpConn * LW) :=
  let direct w :=
    let '(n, err, pc) := pconn_WriteTo (uc_PacketConn c) p addr in
    Return (n, err, uc_with c pc, w)
  in
  match uc_rlimiter c with
  | None => direct w
  | Some rl =>
      match addr with
      | None => Panic
      | Some a =>
          let '(host, _, _) := SplitHostPort (addr_String a) in
          match limiter.Out rl host with
          | None => direct w
          | Some limiter =>
              let '(granted, w) := limiter.Wait limiter w (len p) in
              if granted <? len p then Return (len p, None, c, w)
              else direct w
          end
      end
  end.

Definition udpConn_WriteToUDP (c : udpConn) (w : LW) (b : bytes)
    (addr : option UDPAddr)
  : Z * option error * udpConn * LW :=
  let probe w :=
    match as_WriteUDP with
    | Some nc =>
        let '(n, err, pc) := WriteToUDP nc (uc_PacketConn c) b addr in
        (n, err, uc_with c pc, w)
    | None => (0, Some errUnsupport, c, w)
    end
  in
  match uc_rlimiter c with
  | None => probe w
  | Some rl =>
      let '(host, _, _) := SplitHostPort (UDPAddr_String addr) in
      match limiter.Out rl host with
      | None => probe w
      | Some limiter =>
          let '(granted, w) := limiter.Wait limiter w (len b) in
          if granted <? len b then (len b, None, c, w)
          else probe w
      end
  end.

Definition udpConn_WriteMsgUDP (c : udpConn) (w : LW) (b oob : bytes)
    (addr : option UDPAddr)
  : Z * Z * option error * udpConn * LW :=
  let probe w :=
    match as_WriteUDP with
    | Some nc =>
        let '(n, oobn, err, pc) :=
          WriteMsgUDP nc (uc_PacketConn c) b oob addr in
        (n, oobn, err, uc_with c pc, w)
    | None => (0, 0, Some errUnsupport, c, w)
    end
  in
  match uc_rlimiter c with
  | None => probe w
  | Some rl =>
      let '(host, _, _) := SplitHostPort (UDPAddr_String addr) in
      match limiter.Out rl host with
      | None => probe w
      | Some limiter =>
          let '(granted, w) := limiter.Wait limiter w (len b) in
          if granted <? len b then (len b, 0, None, c, w)
          else probe w
      end
  end.

Definition udpConn_SyscallConn (c : udpConn)
  : option RawConn * option error * udpConn :=
  match as_SyscallConn with
  | Some nc =>
      let '(rc, err, pc) := nc (uc_PacketConn c) in
      (rc, err, uc_with c pc)
  | None => (None, Some errUnsupport, c)
  end.

Definition udpConn_SetDSCP (c : udpConn) (n : Z) : option error * udpConn :=
  match as_SetDSCP with
  | Some nc =>
      let '(err, pc) := nc (uc_PacketConn c) n in
      (err, uc_with c pc)
  | None => (None, c)
  end.

(** The limiter key of an address string: the host [SplitHostPort] finds. *)
Definition hostKey (s : string) : string :=
  let '(host, _, _) := SplitHostPort s in host.

(** A datagram of [n] bytes from [host] passes the ingress check, taking
    the limiter state from [w] to [w']: no limiter applies, or the limiter
    granted all [n] bytes. *)
Definition admitted (rlimiter : option (limiter.RateLimiter LW))
    (host : string) (n : Z) (w w' : LW) : Prop :=
  (rl_In rlimiter host = None /\ w' = w)
  \/ (exists l granted,
        rl_In rlimiter host = Some l
        /\ limiter.Wait l w n = (granted, w') /\ n <= granted).


(** The egress check drops a datagram of [size] bytes for [host]: a limiter
    applies and grants fewer than [size]. *)
Definition dropped_egress (rlimiter : option (limiter.RateLimiter LW))
    (host : string) (size : Z) (w w' : LW) : Prop :=
  exists rl l granted,
    rlimiter = Some rl /\ limiter.Out rl host = Some l
    /\ limiter.Wait l w size = (granted, w') /\ granted < size.

(** The egress check lets the datagram through: no rate limiter, no
    limiter for [host], or a grant of all [size] bytes. *)
Definition passes_egress (rlimiter : option (limiter.RateLimiter LW))
    (host : string) (size : Z) (w w' : LW) : Prop :=
  (rlimiter = None /\ w' = w)
  \/ (exists rl, rlimiter = Some rl /\ limiter.Out rl host = None /\ w' = w)
  \/ (exists rl l granted,
        rlimiter = Some rl /\ limiter.Out rl host = Some l
        /\ limiter.Wait l w size = (granted, w') /\ size <= granted).
End Datagram.

(** ** Concrete collaborators, for the examples *)

(** A limiter granting at most [g] tokens a call; its state counts the
    [Wait] calls it has served. *)
Definition capLimiter (g : Z) : limiter.Limiter nat :=
  {| limiter.Wait := fun w n => (Z.min g n, S w) |}.

Definition fullLimiter : limiter.Limiter nat :=
  {| limiter.Wait := fun w n => (n, S w) |}.

Definition uniformRateLimiter (l : limiter.Limiter nat)
  : limiter.RateLimiter nat :=
  {| limiter.In := fun _ => Some l; limiter.Out := fun _ => Some l |}.

(** One limiter for [host], another choice for every other host. *)
Definition hostRateLimiter (host : string)
    (l other : option (limiter.Limiter nat)) : limiter.RateLimiter nat :=
  {| limiter.In := fun h => if String.eqb h host then l else other;
     limiter.Out := fun h => if String.eqb h host then l else other |}.

(** The host and the port around the last colon of [s]. *)
Fixpoint split_colon (s : string) : string * option string :=
  match s with
  | EmptyString => (EmptyString, None)
  | String ch rest =>
      match split_colon rest with
      | (h, Some p) => (String ch h, Some p)
      | (h, None) =>
          if Ascii.eqb ch ":"%char then (EmptyString, Some rest)
          else (String ch h, None)
      end
  end.

(** [net.SplitHostPort] on the bracket-free form [host:port]. *)
Definition SplitHostPort_plain (s : string) : string * string * option error :=
  match split_colon s with
  | (h, Some p) => (h, p, None)
  | (_, None) =>
      (EmptyString, EmptyString, Some (io_error "missing port in address"))
  end.

(** A stream connection driven by a script: each entry is what a read
    finds (data, and the error reported with its last byte); the peer
    accepts [budget] more bytes.  [handed] and [written] record what went
    through. *)
Record scriptConn := {
  script : list (bytes * option error);
  budget : Z;
  handed : bytes;
  written : list bytes;
  remote : Addr }.

Definition scriptConn_Read (c : scriptConn) (b : bytes)
  : Z * option error * bytes * scriptConn :=
  match script c with
  | [] => (0, Some io_EOF, b, c)
  | (data, err) :: rest =>
      let '(n, b') := copy b data in
      if n <? len data then
        (n, None, b',
         {| script := (skipn (Z.to_nat n) data, err) :: rest;
            budget := budget c;
            handed := handed c ++ firstn (Z.to_nat n) data;
            written := written c; remote := remote c |})
      else
        (n, err, b',
         {| script := rest; budget := budget c;
            handed := handed c ++ data;
            written := written c; remote := remote c |})
  end.

Definition scriptConn_Write (c : scriptConn) (p : bytes)
  : Z * option error * scriptConn :=
  if len p <=? budget c then
    (len p, None,
     {| script := script c; budget := budget c - len p;
        handed := handed c; written := written c ++ [p];
        remote := remote c |})
  else
    (Z.max 0 (budget c), Some (io_error "broken pipe"),
     {| script := script c; budget := 0;
        handed := handed c; written := written c ++ [p];
        remote := remote c |}).

#[export] Instance scriptConn_NetConn : NetConn scriptConn := {
  conn_Read := scriptConn_Read;
  conn_Write := scriptConn_Write;
  conn_RemoteAddr := fun c => Some (remote c) }.

(** A packet connection with a queue of incoming datagrams and none of
    the optional interfaces. *)
Record bareSock := {
  inbox : list (bytes * Addr);
  outbox : list (bytes * option Addr) }.

Definition bareSock_ReadFrom (c : bareSock) (p : bytes)
  : Z * option Addr * option error * bytes * bareSock :=
  match inbox c with
  | [] => (0, None, Some io_EOF, p, c)
  | (d, a) :: rest =>
      let '(n, p') := copy p d in
      (n, Some a, None, p', {| inbox := rest; outbox := outbox c |})
  end.

Definition bareSock_WriteTo (c : bareSock) (p : bytes) (addr : option Addr)
  : Z * option error * bareSock :=
  (len p, None, {| inbox := inbox c; outbox := outbox c ++ [(p, addr)] |}).

#[export] Instance bareSock_PacketConn : PacketConn bareSock := {
  pconn_ReadFrom := bareSock_ReadFrom;
  pconn_WriteTo := bareSock_WriteTo;
  as_RemoteAddr := None;
  as_SetBuffer := None;
  as_Reader := None;
  as_Writer := None;
  as_ReadUDP := None;
  as_WriteUDP := None;
  as_SyscallConn := None;
  as_SetDSCP := None }.

Definition tcp_addr (s : string) : Addr :=
  {| addr_Network := "tcp"; addr_String := s |}.

Definition udp_addr (s : string) : Addr :=
  {| addr_Network := "udp"; addr_String := s |}.

Definition peer (data : list (bytes * option error)) (room : Z) : scriptConn :=
  {| script := data; budget := room; handed := []; written := [];
     remote := tcp_addr "192.0.2.7:4000" |}.

(** A fresh stream wrapper over [conn] under [rl], as [WrapConn] builds it. *)
Definition wrap (rl : limiter.RateLimiter nat) (conn : scriptConn)
  : serverConn (LW := nat) :=
  {| sc_Conn := conn; sc_rbuf := []; sc_raddr := "192.0.2.7";
     sc_rlimiter := Some rl |}.

Definition zeros (n : nat) : bytes := repeat x00 n.

Definition twelve : bytes :=
  [x01; x02; x03; x04; x05; x06; x07; x08; x09; x0a; x0b; x0c].

(** The inputs of the examples. *)

(** Twelve bytes on the wire under a limiter of five bytes a call. *)
Definition paced5 : @serverConn nat scriptConn :=
  wrap (uniformRateLimiter (capLimiter 5)) (peer [(twelve, None)] 100).

(** A peer whose last three bytes arrive together with [io.EOF]. *)
Definition eof_conn : @serverConn nat scriptConn :=
  wrap (uniformRateLimiter (capLimiter 5))
    (peer [(firstn 3 twelve, Some io_EOF)] 100).

(** [paced5] with seven bytes already staged. *)
Definition staged_conn : @serverConn nat scriptConn :=
  with_rbuf paced5 (skipn 5 twelve).

(** A limiter that never grants anything. *)
Definition stalled : @serverConn nat scriptConn :=
  wrap (uniformRateLimiter (capLimiter 0)) (peer [] 100).

(** A rate limiter that knows another host only. *)
Definition unlimited : @serverConn nat scriptConn :=
  wrap (hostRateLimiter "198.51.100.1" (Some (capLimiter 0)) None)
    (peer [(twelve, None)] 100).

(** A 100-byte datagram from 10.0.0.1, then a 50-byte one from 10.0.0.2. *)
Definition sock0 : bareSock :=
  {| inbox := [(zeros 100, udp_addr "10.0.0.1:5000");
               (zeros 50, udp_addr "10.0.0.2:5000")];
     outbox := [] |}.

(** Nothing for 10.0.0.1, everything for the others. *)
Definition hostile_rl : limiter.RateLimiter nat :=
  hostRateLimiter "10.0.0.1" (Some (capLimiter 0)) (Some fullLimiter).

Definition guarded_packet : @packetConn nat bareSock :=
  {| pc_PacketConn := sock0; pc_rlimiter := Some hostile_rl |}.

Definition guarded_udp : @udpConn nat bareSock :=
  {| uc_PacketConn := sock0; uc_rlimiter := Some hostile_rl |}.

Definition to_10_0_0_1 : option UDPAddr :=
  Some {| udp_String := "10.0.0.1:5000" |}.

Definition to_10_0_0_2 : option UDPAddr :=
  Some {| udp_String := "10.0.0.2:5000" |}.

(** ** Package parsing: the helpers of ParseService *)

(** The names among [names] that [get] knows, in order. *)
Definition registered {A : Type} (get : string -> option A)
    (names : list string) : list A :=
  flat_map (fun s => match get s with Some x => [x] | None => [] end) names.

Section Parsing.
(** The registries and the constructors of packages registry, bypass and
    chain, as the calls in this file see them: a registry is its [Get],
    which answers nil for a name it does not know. *)
Variables Bypass Auther Admission Node NodeGroup Selector SelectorConfig : Type.
Variable BypassRegistry_Get : string -> option Bypass.
Variable AutherRegistry_Get : string -> option Auther.
Variable AdmissionRegistry_Get : string -> option Admission.
Variable BypassGroup : list Bypass -> Bypass.
Variable NewNode : string -> string -> Node.
Variable WithBypass : Node -> Bypass -> Node.
Variable NodeGroup_empty : NodeGroup.
Variable AddNode : NodeGroup -> Node -> NodeGroup.
Variable WithSelector : NodeGroup -> Selector -> NodeGroup.
Variable parseNodeSelector : option SelectorConfig -> option Selector.
Variable defaultNodeSelector : Selector.
Variable TrimSpace : string -> string.

(** Modelled from the spec: [config.ForwardNodeConfig] and
    [config.ForwarderConfig] are declared in package config, outside the
    sources at hand; their fields are the ones [parseForwarder] reads.  A
    nil pointer is [None]. *)
Record ForwardNodeConfig := {
  fn_Name : string;
  fn_Addr : string;
  fn_Bypass : string;
  fn_Bypasses : list string }.

Record ForwarderConfig := {
  fc_Nodes : list (option ForwardNodeConfig);
  fc_Targets : list string;
  fc_Selector : option SelectorConfig }.

(** [func bypassList(name string, names ...string) []bypass.Bypass] *)
Definition bypassList (name : string) (names : list string) : list Bypass :=
  let bypasses := [] in
  let bypasses :=
    match BypassRegistry_Get name with
    | Some bp => bypasses ++ [bp]
    | None => bypasses
    end in
  fold_left
    (fun bypasses s =>
       match BypassRegistry_Get s with
       | Some bp => bypasses ++ [bp]
       | None => bypasses
       end)
    names bypasses.

(** [func autherList(name string, names ...string) []auth.Authenticator] *)
Definition autherList (name : string) (names : list string) : list Auther :=
  let authers := [] in
  let authers :=
    match AutherRegistry_Get name with
    | Some auther => authers ++ [auther]
    | None => authers
    end in
  fold_left
    (fun authers s =>
       match AutherRegistry_Get s with
       | Some auther => authers ++ [auther]
       | None => authers
       end)
    names authers.

(** [func admissionList(name string, names ...string) []admission.Admission] *)
Definition admissionList (name : string) (names : list string)
  : list Admission :=
  let admissions := [] in
  let admissions :=
    match AdmissionRegistry_Get name with
    | Some adm => admissions ++ [adm]
    | None => admissions
    end in
  fold_left
    (fun admissions s =>
       match AdmissionRegistry_Get s with
       | Some adm => admissions ++ [adm]
       | None => admissions
       end)
    names admissions.

(** The node [parseForwarder] builds of a node entry. *)
Definition forward_node (node : ForwardNodeConfig) : Node :=
  WithBypass (NewNode (fn_Name node) (fn_Addr node))
    (BypassGroup (bypassList (fn_Bypass node) (fn_Bypasses node))).

(** [func parseForwarder(cfg *config.ForwarderConfig) *chain.NodeGroup] *)
Definition parseForwarder (cfg : option ForwarderConfig) : option NodeGroup :=
  match cfg with
  | None => None
  | Some cfg =>
      if (len (fc_Targets cfg) =? 0) && (len (fc_Nodes cfg) =? 0) then None
      else
        let group := NodeGroup_empty in
        let group :=
          if 0 <? len (fc_Nodes cfg) then
            fold_left
              (fun group node =>
                 match node with
                 | Some node => AddNode group (forward_node node)
                 | None => group
                 end)
              (fc_Nodes cfg) group
          else
            fold_left
              (fun group target =>
                 if String.eqb (TrimSpace target) EmptyString then group
                 else AddNode group (NewNode target target))
              (fc_Targets cfg) group in
        let sel := parseNodeSelector (fc_Selector cfg) in
        let sel :=
          match sel with
          | None => defaultNodeSelector
          | Some sel => sel
          end in
        Some (WithSelector group sel)
  end.

(** The selector [parseForwarder] settles on. *)
Definition forwarder_selector (cfg : ForwarderConfig) : Selector :=
  match parseNodeSelector (fc_Selector cfg) with
  | None => defaultNodeSelector
  | Some sel => sel
  end.

(** The entries of [nodes] that are not nil. *)
Definition present_nodes (nodes : list (option ForwardNodeConfig))
  : list ForwardNodeConfig :=
  flat_map (fun node => match node with Some n => [n] | None => [] end) nodes.

(** The targets that are not blank. *)
Definition solid_targets (targets : list string) : list string :=
  filter (fun target => negb (String.eqb (TrimSpace target) EmptyString))
    targets.
End Parsing.
Arguments fc_Nodes {SelectorConfig} _.
Arguments fc_Targets {SelectorConfig} _.
Arguments fc_Selector {SelectorConfig} _.
Arguments bypassList {Bypass} _ _ _.
Arguments autherList {Auther} _ _ _.
Arguments admissionList {Admission} _ _ _.
Arguments forward_node {Bypass Node} _ _ _ _ _.
Arguments parseForwarder {Bypass Node NodeGroup Selector SelectorConfig}
  _ _ _ _ _ _ _ _ _ _ _.
Arguments forwarder_selector {Selector SelectorConfig} _ _ _.

(** A registry that knows the bypasses [lan] and [vpn], and a forwarder
    configuration with a nil node entry, one node and a target. *)
Definition demo_bypasses (s : string) : option string :=
  if String.eqb s "lan" || String.eqb s "vpn" then Some s else None.

Definition demo_forwarder : ForwarderConfig unit :=
  {| fc_Nodes :=
       [None;
        Some {| fn_Name := "a"; fn_Addr := "10.0.0.1:80";
                fn_Bypass := "lan";
                fn_Bypasses := ["nope"%string; "vpn"%string] |}];
     fc_Targets := ["ignored:1"%string];
     fc_Selector := None |}.

(** A stream connection holding the bytes on the [wire]; a read hands out
    at most [chop] of them (at least one), and reports [io.EOF] once the
    wire is empty.  [unnamed] is a connection without remote address. *)
Record wireConn := {
  wire : bytes;
  chop : Z;
  unnamed : bool }.

Definition wireConn_Read (c : wireConn) (b : bytes)
  : Z * option error * bytes * wireConn :=
  match wire c with
  | [] => (0, Some io_EOF, b, c)
  | _ :: _ =>
      let '(n, b') :=
        copy b (firstn (Z.to_nat (Z.max 1 (chop c))) (wire c)) in
      (n, None, b',
       {| wire := skipn (Z.to_nat n) (wire c); chop := chop c;
          unnamed := unnamed c |})
  end.

#[export] Instance wireConn_NetConn : NetConn wireConn := {
  conn_Read := wireConn_Read;
  conn_Write := fun c p => (len p, None, c);
  conn_RemoteAddr := fun c =>
    if unnamed c then None else Some (tcp_addr "192.0.2.7:4000") }.

(** Twelve bytes on the wire, at most eight a read. *)
Definition wire12 : wireConn :=
  {| wire := twelve; chop := 8; unnamed := false |}.

(** [wire12] behind a limiter of five bytes a call. *)
Definition wired5 : @serverConn nat wireConn :=
  {| sc_Conn := wire12; sc_rbuf := []; sc_raddr := "192.0.2.7";
     sc_rlimiter := Some (uniformRateLimiter (capLimiter 5)) |}.

(** [wire12] behind a limiter that never grants anything. *)
Definition starved : @serverConn nat wireConn :=
  {| sc_Conn := wire12; sc_rbuf := []; sc_raddr := "192.0.2.7";
     sc_rlimiter := Some (uniformRateLimiter (capLimiter 0)) |}.

(** ** Observers and relations for the further properties *)

Section StreamObservers.
Context {C : Type} `{NetConn C}.

(** The count of a [Write] lies within the slice (nothing is said of the
    error of a short write). *)
Definition Write_count_in_bounds : Prop :=
  forall (c : C) p nn err c',
    conn_Write c p = (nn, err, c') -> 0 <= nn <= len p.

(** A [Write] of a non-empty slice that reports no error has written at
    least one byte. *)
Definition Write_makes_progress : Prop :=
  forall (c : C) p nn c',
    conn_Write c p = (nn, None, c') -> 0 < len p -> 0 < nn.

(** [accepted] observes every byte the connection has taken. *)
Definition records_accepted (accepted : C -> bytes) : Prop :=
  forall (c : C) p nn err c',
    conn_Write c p = (nn, err, c') ->
    accepted c' = accepted c ++ firstn (Z.to_nat nn) p.
End StreamObservers.

Section DatagramObservers.
Context {LW : Type} {P : Type} `{PacketConn P}.
Variable SplitHostPort : string -> string * string * option error.

(** [sent] observes every datagram passed to the connection's [WriteTo]. *)
Definition records_sends (sent : P -> list (bytes * option Addr)) : Prop :=
  forall (c : P) p addr n err c',
    pconn_WriteTo c p addr = (n, err, c') -> sent c' = sent c ++ [(p, addr)].

(** The run of datagrams [ReadFromUDP] skips, as [skipped] for [ReadFrom]. *)
Inductive skippedUDP (nc : ReadUDP P)
    (rlimiter : option (limiter.RateLimiter LW))
  : P -> LW -> bytes -> P -> LW -> bytes -> Prop :=
| skippedUDP_none pc w b : skippedUDP nc rlimiter pc w b pc w b
| skippedUDP_next pc w b n addr b1 pc1 l granted w1 pc' w' b' :
    ReadFromUDP nc pc b = (n, addr, None, b1, pc1) ->
    rl_In rlimiter (hostKey SplitHostPort (UDPAddr_String addr)) = Some l ->
    limiter.Wait l w n = (granted, w1) ->
    granted < n ->
    skippedUDP nc rlimiter pc1 w1 b1 pc' w' b' ->
    skippedUDP nc rlimiter pc w b pc' w' b'.

(** The run of messages [ReadMsgUDP] skips. *)
Inductive skippedMsg (nc : ReadUDP P)
    (rlimiter : option (limiter.RateLimiter LW))
  : P -> LW -> bytes -> bytes -> P -> LW -> bytes -> bytes -> Prop :=
| skippedMsg_none pc w b oob : skippedMsg nc rlimiter pc w b oob pc w b oob
| skippedMsg_next pc w b oob n oobn flags addr b1 oob1 pc1 l granted w1
    pc' w' b' oob' :
    ReadMsgUDP nc pc b oob = (n, oobn, flags, addr, None, b1, oob1, pc1) ->
    rl_In rlimiter (hostKey SplitHostPort (UDPAddr_String addr)) = Some l ->
    limiter.Wait l w n = (granted, w1) ->
    granted < n ->
    skippedMsg nc rlimiter pc1 w1 b1 oob1 pc' w' b' oob' ->
    skippedMsg nc rlimiter pc w b oob pc' w' b' oob'.
End DatagramObservers.

(** A stream peer that takes at most [k] bytes of a write, for each [k] of
    [room] in turn, without reporting an error; [taken] records the bytes
    it took. *)
Record shortConn := {
  room : list Z;
  taken : bytes }.

Definition shortConn_Read (c : shortConn) (b : bytes)
  : Z * option error * bytes * shortConn :=
  (0, Some io_EOF, b, c).

Definition shortConn_Write (c : shortConn) (p : bytes)
  : Z * option error * shortConn :=
  match room c with
  | [] => (0, Some (io_error "closed"), c)
  | k :: rest =>
      let nn := Z.max 0 (Z.min k (len p)) in
      (nn, None, {| room := rest; taken := taken c ++ firstn (Z.to_nat nn) p |})
  end.

#[export] Instance shortConn_NetConn : NetConn shortConn := {
  conn_Read := shortConn_Read;
  conn_Write := shortConn_Write;
  conn_RemoteAddr := fun _ => Some (tcp_addr "192.0.2.7:4000") }.

(** A peer that takes three bytes, then two, then the rest. *)
Definition slow_writer : @serverConn nat shortConn :=
  {| sc_Conn := {| room := [3; 2; 100; 100; 100]; taken := [] |};
     sc_rbuf := []; sc_raddr := "192.0.2.7";
     sc_rlimiter := Some (uniformRateLimiter (capLimiter 5)) |}.

(** A UDP socket with every optional interface. *)
Record udpSock := {
  u_inbox : list (bytes * UDPAddr);
  u_outbox : list (bytes * option string);
  u_rcvbuf : Z;
  u_sndbuf : Z;
  u_dscp : Z }.

Definition udpSock_pop (c : udpSock) : udpSock :=
  {| u_inbox := tl (u_inbox c); u_outbox := u_outbox c;
     u_rcvbuf := u_rcvbuf c; u_sndbuf := u_sndbuf c; u_dscp := u_dscp c |}.

Definition udpSock_push (c : udpSock) (p : bytes) (to : option string)
  : udpSock :=
  {| u_inbox := u_inbox c; u_outbox := u_outbox c ++ [(p, to)];
     u_rcvbuf := u_rcvbuf c; u_sndbuf := u_sndbuf c; u_dscp := u_dscp c |}.

Definition udpSock_ReadFromUDP (c : udpSock) (b : bytes)
  : Z * option UDPAddr * option error * bytes * udpSock :=
  match u_inbox c with
  | [] => (0, None, Some io_EOF, b, c)
  | (d, a) :: _ =>
      let '(n, b') := copy b d in (n, Some a, None, b', udpSock_pop c)
  end.

Definition udpSock_ReadMsgUDP (c : udpSock) (b oob : bytes)
  : Z * Z * Z * option UDPAddr * option error * bytes * bytes * udpSock :=
  match u_inbox c with
  | [] => (0, 0, 0, None, Some io_EOF, b, oob, c)
  | (d, a) :: _ =>
      let '(n, b') := copy b d in
      (n, 0, 0, Some a, None, b', oob, udpSock_pop c)
  end.

Definition udpSock_ReadFrom (c : udpSock) (p : bytes)
  : Z * option Addr * option error * bytes * udpSock :=
  match u_inbox c with
  | [] => (0, None, Some io_EOF, p, c)
  | (d, a) :: _ =>
      let '(n, p') := copy p d in
      (n, Some (udp_addr (udp_String a)), None, p', udpSock_pop c)
  end.

Definition udpSock_ReadUDP : ReadUDP udpSock :=
  {| ReadFromUDP := udpSock_ReadFromUDP; ReadMsgUDP := udpSock_ReadMsgUDP |}.

Definition udpSock_WriteUDP : WriteUDP udpSock :=
  {| WriteToUDP := fun c b addr =>
       (len b, None, udpSock_push c b (option_map udp_String addr));
     WriteMsgUDP := fun c b oob addr =>
       (len b, len oob, None,
        udpSock_push c b (option_map udp_String addr)) |}.

Definition udpSock_SetBuffer : SetBuffer udpSock :=
  {| SetReadBuffer := fun c n =>
       (None, {| u_inbox := u_inbox c; u_outbox := u_outbox c;
                 u_rcvbuf := n; u_sndbuf := u_sndbuf c; u_dscp := u_dscp c |});
     SetWriteBuffer := fun c n =>
       (None, {| u_inbox := u_inbox c; u_outbox := u_outbox c;
                 u_rcvbuf := u_rcvbuf c; u_sndbuf := n; u_dscp := u_dscp c |}) |}.

#[export] Instance udpSock_PacketConn : PacketConn udpSock := {
  pconn_ReadFrom := udpSock_ReadFrom;
  pconn_WriteTo := fun c p addr =>
    (len p, None, udpSock_push c p (option_map addr_String addr));
  as_RemoteAddr := Some (fun _ => None);
  as_SetBuffer := Some udpSock_SetBuffer;
  as_Reader := None;
  as_Writer := None;
  as_ReadUDP := Some udpSock_ReadUDP;
  as_WriteUDP := Some udpSock_WriteUDP;
  as_SyscallConn := Some (fun c => (Some {| rawconn_fd := 3 |}, None, c));
  as_SetDSCP := Some (fun c n =>
    (None, {| u_inbox := u_inbox c; u_outbox := u_outbox c;
              u_rcvbuf := u_rcvbuf c; u_sndbuf := u_sndbuf c; u_dscp := n |})) }.

(** 100 bytes from 10.0.0.1, then 50 bytes from 10.0.0.2, on a UDP socket
    behind [hostile_rl]. *)
Definition usock0 : udpSock :=
  {| u_inbox := [(zeros 100, {| udp_String := "10.0.0.1:5000" |});
                 (zeros 50, {| udp_String := "10.0.0.2:5000" |})];
     u_outbox := []; u_rcvbuf := 0; u_sndbuf := 0; u_dscp := 0 |}.

Definition guarded_usock : @udpConn nat udpSock :=
  {| uc_PacketConn := usock0; uc_rlimiter := Some hostile_rl |}.

(** * Properties *)

(** ** Slices and buffers *)

Lemma len_nonneg {A : Type} (s : list A) : 0 <= len s.
Proof. unfold len. lia. Qed.

Lemma len_nil_iff {A : Type} (s : list A) : len s = 0 <-> s = [].
Proof.
  unfold len. destruct s; simpl; split; intros E; try reflexivity; try lia.
  discriminate E.
Qed.

Lemma len_app {A : Type} (s t : list A) : len (s ++ t) = len s + len t.
Proof. unfold len. rewrite length_app. lia. Qed.

Lemma len_firstn (b : bytes) (n : Z) :
  0 <= n <= len b -> len (firstn (Z.to_nat n) b) = n.
Proof. unfold len. intros Hn. rewrite length_firstn. lia. Qed.

Lemma len_skipn (b : bytes) (n : Z) :
  0 <= n <= len b -> len (skipn (Z.to_nat n) b) = len b - n.
Proof. unfold len. intros Hn. rewrite length_skipn. lia. Qed.

Lemma slice_prefix (b : bytes) (n : Z) :
  0 <= n <= len b -> slice b 0 n = Some (firstn (Z.to_nat n) b).
Proof.
  intros Hn. unfold slice.
  replace (0 <=? 0) with true by reflexivity.
  destruct (Z.leb_spec 0 n); [|lia].
  destruct (Z.leb_spec n (len b)); [|lia].
  simpl. now rewrite Z.sub_0_r.
Qed.

Lemma slice_suffix (b : bytes) (n : Z) :
  0 <= n <= len b -> slice b n (len b) = Some (skipn (Z.to_nat n) b).
Proof.
  intros Hn. unfold slice.
  destruct (Z.leb_spec 0 n); [|lia].
  destruct (Z.leb_spec n (len b)); [|lia].
  rewrite Z.leb_refl. simpl. f_equal.
  apply firstn_all2. rewrite length_skipn. unfold len. lia.
Qed.

Lemma slice_middle (b : bytes) (lo hi : Z) :
  0 <= lo <= hi -> hi <= len b ->
  slice b lo hi = Some (firstn (Z.to_nat (hi - lo)) (skipn (Z.to_nat lo) b)).
Proof.
  intros H1 H2. unfold slice.
  destruct (Z.leb_spec 0 lo); [|lia].
  destruct (Z.leb_spec lo hi); [|lia].
  destruct (Z.leb_spec hi (len b)); [|lia].
  reflexivity.
Qed.

(** The first [hi] bytes are the first [lo] followed by [b[lo:hi]]. *)
Lemma firstn_split (b : bytes) (lo hi : Z) :
  0 <= lo <= hi ->
  firstn (Z.to_nat hi) b =
  firstn (Z.to_nat lo) b ++ firstn (Z.to_nat (hi - lo)) (skipn (Z.to_nat lo) b).
Proof.
  intros Hlo.
  rewrite <- (firstn_skipn (Z.to_nat lo) (firstn (Z.to_nat hi) b)) at 1.
  rewrite firstn_firstn, skipn_firstn_comm.
  f_equal; f_equal; lia.
Qed.

(** Draining [n] staged bytes into a slice of exactly [n] bytes. *)
Lemma Buffer_Read_exact (buf : Buffer) (p : bytes) :
  buf <> [] -> len p <= len buf ->
  Buffer_Read buf p =
  (len p, None, firstn (Z.to_nat (len p)) buf, skipn (Z.to_nat (len p)) buf).
Proof.
  intros Hne Hle. unfold Buffer_Read.
  destruct buf as [|x buf]; [congruence|].
  unfold copy. unfold len in *.
  rewrite Nat.min_l by lia.
  rewrite Nat2Z.id, skipn_all, app_nil_r. reflexivity.
Qed.

(** ** The read path of serverConn *)

Section StreamRead.
Context {LW : Type} {C : Type} `{NetConn C}.

(** The staged branch of [Read], under the limiter's contract. *)
Lemma Read_staged (c : @serverConn LW C) (w : LW) (b : bytes) l granted w' :
  sc_In c = Some l ->
  limiter.within_request l ->
  sc_rbuf c <> [] ->
  limiter.Wait l w (Z.min (len b) (len (sc_rbuf c))) = (granted, w') ->
  serverConn_Read c w b =
  Return (granted, None,
          firstn (Z.to_nat granted) (sc_rbuf c) ++ skipn (Z.to_nat granted) b,
          with_rbuf c (skipn (Z.to_nat granted) (sc_rbuf c)), w').
Proof.
  intros HIn Hl Hne HW. unfold serverConn_Read. rewrite HIn.
  unfold Buffer_Len.
  assert (0 < len (sc_rbuf c)) as Hpos.
  { pose proof (len_nonneg (sc_rbuf c)).
    destruct (Z.eq_dec (len (sc_rbuf c)) 0) as [E|]; [|lia].
    apply len_nil_iff in E. contradiction. }
  destruct (Z.ltb_spec 0 (len (sc_rbuf c))); [|lia].
  assert ((if len (sc_rbuf c) <? len b then len (sc_rbuf c) else len b)
          = Z.min (len b) (len (sc_rbuf c))) as ->.
  { destruct (Z.ltb_spec (len (sc_rbuf c)) (len b)); lia. }
  rewrite HW.
  pose proof (len_nonneg b).
  specialize (Hl w (Z.min (len b) (len (sc_rbuf c)))).
  rewrite HW in Hl. simpl in Hl.
  assert (0 <= granted <= Z.min (len b) (len (sc_rbuf c))) as Hg
    by (apply Hl; lia).
  rewrite slice_prefix by lia.
  rewrite Buffer_Read_exact; [|assumption|rewrite len_firstn; lia].
  rewrite len_firstn by lia. reflexivity.
Qed.

(** The network branch of [Read] when the underlying read fails. *)
Lemma Read_error (c : @serverConn LW C) (w : LW) (b : bytes) l nn e b' conn :
  sc_In c = Some l ->
  sc_rbuf c = [] ->
  conn_Read (sc_Conn c) b = (nn, Some e, b', conn) ->
  serverConn_Read c w b = Return (nn, Some e, b', with_Conn c conn, w).
Proof.
  intros HIn Hbuf HR. unfold serverConn_Read.
  rewrite HIn, Hbuf, HR. reflexivity.
Qed.

(** The network branch of [Read] when the underlying read succeeds. *)
Lemma Read_network (c : @serverConn LW C) (w : LW) (b : bytes) l nn b' conn n w' :
  sc_In c = Some l ->
  limiter.within_request l ->
  Read_in_bounds ->
  sc_rbuf c = [] ->
  conn_Read (sc_Conn c) b = (nn, None, b', conn) ->
  limiter.Wait l w nn = (n, w') ->
  serverConn_Read c w b =
  Return (n, None, b',
          with_rbuf (with_Conn c conn)
            (firstn (Z.to_nat (nn - n)) (skipn (Z.to_nat n) b')), w')
  /\ 0 <= n <= nn.
Proof.
  intros HIn Hl Hb Hbuf HR HW.
  destruct (Hb _ _ _ _ _ _ HR) as [Hnn Hlen].
  specialize (Hl w nn). rewrite HW in Hl. simpl in Hl.
  assert (0 <= n <= nn) as Hn by (apply Hl; lia).
  split; [|exact Hn].
  unfold serverConn_Read. rewrite HIn, Hbuf, HR, HW. simpl.
  destruct (Z.ltb_spec n nn) as [Hlt|Hge].
  - rewrite slice_middle by lia.
    unfold Buffer_Write, with_rbuf, with_Conn. simpl. rewrite Hbuf. reflexivity.
  - assert (n = nn) as -> by lia.
    rewrite Z.sub_diag. simpl.
    unfold with_rbuf, with_Conn. simpl. rewrite Hbuf. reflexivity.
Qed.

(** One [Read] keeps the stream intact: what was staged, followed by what
    the connection had pending, is what the call delivered, followed by
    what is staged now and what the connection still has pending; and the
    call delivers at least one byte when limiter and connection make
    progress, the slice is not empty and a byte is staged or pending. *)
Lemma Read_step_stream (pending : C -> bytes)
    (c : @serverConn LW C) (w : LW) (b : bytes) :
  Read_in_bounds ->
  delivers_stream pending ->
  (forall l, sc_In c = Some l -> limiter.within_request l) ->
  (sc_In c = None -> sc_rbuf c = []) ->
  exists n err b' c' w',
    serverConn_Read c w b = Return (n, err, b', c', w')
    /\ sc_In c' = sc_In c
    /\ (sc_In c = None -> sc_rbuf c' = [])
    /\ sc_rbuf c ++ pending (sc_Conn c)
       = firstn (Z.to_nat n) b' ++ sc_rbuf c' ++ pending (sc_Conn c')
    /\ List.length (firstn (Z.to_nat n) b') = Z.to_nat n
    /\ (stream_progress pending ->
        (forall l, sc_In c = Some l -> limiter.makes_progress l) ->
        0 < len b ->
        sc_rbuf c ++ pending (sc_Conn c) <> [] ->
        0 < n).
Proof.
  intros Hb Hstream Hlim Hfast.
  pose proof (len_nonneg b) as Hblen.
  destruct (sc_In c) as [l|] eqn:HIn.
  - specialize (Hlim l eq_refl).
    destruct (sc_rbuf c) as [|x buf] eqn:Hbuf.
    + destruct (conn_Read (sc_Conn c) b) as [[[nn err] b'] conn] eqn:HR.
      pose proof (Hstream _ _ _ _ _ _ HR) as Hpend.
      destruct (Hb _ _ _ _ _ _ HR) as [Hnn Hlen].
      destruct err as [e|].
      * exists nn, (Some e), b', (with_Conn c conn), w.
        rewrite (Read_error c w b l nn e b' conn HIn Hbuf HR).
        split; [reflexivity|]. split; [exact HIn|].
        split; [intros E; rewrite E in HIn; discriminate|].
        cbn [sc_rbuf sc_Conn with_Conn]. rewrite Hbuf.
        split; [exact Hpend|].
        split; [rewrite length_firstn; unfold len in *; lia|].
        intros Hprog _ Hpos Hne. apply (Hprog _ _ _ _ _ _ HR); assumption.
      * destruct (limiter.Wait l w nn) as [n w'] eqn:HW.
        destruct (Read_network c w b l nn b' conn n w' HIn Hlim Hb Hbuf HR HW)
          as [-> Hn].
        eexists n, None, b', _, w'.
        split; [reflexivity|]. split; [exact HIn|].
        split; [intros E; rewrite E in HIn; discriminate|].
        cbn [sc_rbuf sc_Conn with_Conn with_rbuf].
        split; [|split].
        -- rewrite Hpend. cbn [app].
           rewrite (firstn_split b' n nn Hn), <- app_assoc. reflexivity.
        -- rewrite length_firstn. unfold len in *. lia.
        -- intros Hprog Hp Hpos Hne.
           assert (0 < nn) as Hnn1
             by (apply (Hprog _ _ _ _ _ _ HR); assumption).
           pose proof (Hp l eq_refl w nn Hnn1) as Hg.
           now rewrite HW in Hg.
    + destruct (limiter.Wait l w (Z.min (len b) (len (sc_rbuf c))))
        as [g w'] eqn:HW.
      assert (sc_rbuf c <> []) as Hne by (rewrite Hbuf; discriminate).
      pose proof (len_nonneg (sc_rbuf c)) as Hrlen.
      assert (0 < len (sc_rbuf c)) as Hrpos
        by (rewrite Hbuf; unfold len; simpl; lia).
      pose proof (Hlim w (Z.min (len b) (len (sc_rbuf c)))) as Hg.
      rewrite HW in Hg. simpl in Hg.
      assert (0 <= g <= Z.min (len b) (len (sc_rbuf c))) as Hg' by (apply Hg; lia).
      assert (List.length (firstn (Z.to_nat g) (sc_rbuf c)) = Z.to_nat g)
        as Hglen by (rewrite length_firstn; unfold len in *; lia).
      assert (firstn (Z.to_nat g)
                (firstn (Z.to_nat g) (sc_rbuf c) ++ skipn (Z.to_nat g) b)
              = firstn (Z.to_nat g) (sc_rbuf c)) as Hchunk.
      { rewrite firstn_app, Hglen, Nat.sub_diag. simpl.
        rewrite app_nil_r, firstn_firstn, Nat.min_id. reflexivity. }
      eexists g, None, _, _, w'.
      rewrite (Read_staged c w b l g w' HIn Hlim Hne HW).
      split; [reflexivity|]. split; [exact HIn|].
      split; [intros E; rewrite E in HIn; discriminate|].
      cbn [sc_rbuf sc_Conn with_rbuf]. rewrite Hchunk, <- Hbuf.
      split; [|split].
      * now rewrite app_assoc, firstn_skipn.
      * exact Hglen.
      * intros _ Hp Hpos _.
        pose proof (Hp l eq_refl w (Z.min (len b) (len (sc_rbuf c)))) as Hg1.
        rewrite HW in Hg1. apply Hg1. lia.
  - specialize (Hfast eq_refl).
    destruct (conn_Read (sc_Conn c) b) as [[[n err] b'] conn] eqn:HR.
    pose proof (Hstream _ _ _ _ _ _ HR) as Hpend.
    destruct (Hb _ _ _ _ _ _ HR) as [Hn Hlen].
    exists n, err, b', (with_Conn c conn), w.
    unfold serverConn_Read. rewrite HIn, HR.
    split; [reflexivity|]. split; [exact HIn|].
    split; [intros _; exact Hfast|].
    cbn [sc_rbuf sc_Conn with_Conn]. rewrite Hfast.
    split; [exact Hpend|].
    split; [rewrite length_firstn; unfold len in *; lia|].
    intros Hprog _ Hpos Hne. apply (Hprog _ _ _ _ _ _ HR); assumption.
Qed.

(** Any number of successive [Read]s keeps the stream intact. *)
Lemma Read_calls_stream (pending : C -> bytes) (bufs : list bytes) :
  Read_in_bounds ->
  delivers_stream pending ->
  forall (c : @serverConn LW C) (w : LW),
  (forall l, sc_In c = Some l -> limiter.within_request l) ->
  (sc_In c = None -> sc_rbuf c = []) ->
  exists chunks c' w',
    Read_calls c w bufs = Return (chunks, c', w')
    /\ sc_rbuf c ++ pending (sc_Conn c)
       = concat chunks ++ sc_rbuf c' ++ pending (sc_Conn c').
Proof.
  intros Hb Hstream.
  induction bufs as [|b bufs IH]; intros c w Hlim Hfast.
  - exists [], c, w. split; reflexivity.
  - destruct (Read_step_stream pending c w b Hb Hstream Hlim Hfast)
      as (n & err & b' & c1 & w1 & HR & HIn & Hinv & Heq1 & _).
    destruct (IH c1 w1) as (chunks & c2 & w2 & HRs & Heq2).
    + intros l Hl. apply Hlim. now rewrite <- HIn.
    + intros E. apply Hinv. now rewrite <- HIn.
    + exists (firstn (Z.to_nat n) b' :: chunks), c2, w2.
      simpl. rewrite HR, HRs. split; [reflexivity|].
      rewrite Heq1, Heq2, <- app_assoc. reflexivity.
Qed.

(** With limiter and connection making progress, as many [Read]s with
    non-empty slices as there are bytes staged and pending deliver all of
    them, and leave nothing staged or pending. *)
Lemma Read_calls_drain_stream (pending : C -> bytes) (bufs : list bytes) :
  Read_in_bounds ->
  delivers_stream pending ->
  stream_progress pending ->
  forall (c : @serverConn LW C) (w : LW),
  (forall l, sc_In c = Some l -> limiter.within_request l) ->
  (forall l, sc_In c = Some l -> limiter.makes_progress l) ->
  (sc_In c = None -> sc_rbuf c = []) ->
  Forall (fun b => b <> []) bufs ->
  (List.length (sc_rbuf c ++ pending (sc_Conn c)) <= List.length bufs)%nat ->
  exists chunks c' w',
    Read_calls c w bufs = Return (chunks, c', w')
    /\ concat chunks = sc_rbuf c ++ pending (sc_Conn c)
    /\ sc_rbuf c' = [] /\ pending (sc_Conn c') = [].
Proof.
  intros Hb Hstream Hprog.
  induction bufs as [|b bufs IH]; intros c w Hlim Hplim Hfast Hne Hlen.
  - exists [], c, w. simpl in Hlen.
    destruct (sc_rbuf c ++ pending (sc_Conn c)) eqn:E; [|simpl in Hlen; lia].
    apply app_eq_nil in E. destruct E as [-> ->]. auto.
  - destruct (Read_step_stream pending c w b Hb Hstream Hlim Hfast)
      as (n & err & b' & c1 & w1 & HR & HIn & Hinv & Heq1 & Hnlen & Hlive).
    assert (0 < len b) as Hbpos.
    { inversion Hne as [|? ? Hbne _]. pose proof (len_nonneg b).
      destruct (Z.eq_dec (len b) 0) as [E|]; [|lia].
      apply len_nil_iff in E. contradiction. }
    assert (List.length (sc_rbuf c1 ++ pending (sc_Conn c1))
            <= List.length bufs)%nat as Hlen1.
    { assert (List.length (sc_rbuf c ++ pending (sc_Conn c))
              = (Z.to_nat n
                 + List.length (sc_rbuf c1 ++ pending (sc_Conn c1)))%nat)
        as Hsplit by (rewrite Heq1, length_app, Hnlen; reflexivity).
      destruct (sc_rbuf c ++ pending (sc_Conn c)) as [|x rest] eqn:E.
      - simpl in Hsplit. lia.
      - assert (0 < n) as Hn by (apply (Hlive Hprog Hplim Hbpos); discriminate).
        cbn [List.length] in Hlen, Hsplit. lia. }
    destruct (IH c1 w1) as (chunks & c2 & w2 & HRs & Hcat & Hr & Hp).
    + intros l Hl. apply Hlim. now rewrite <- HIn.
    + intros l Hl. apply Hplim. now rewrite <- HIn.
    + intros E. apply Hinv. now rewrite <- HIn.
    + inversion Hne; assumption.
    + exact Hlen1.
    + exists (firstn (Z.to_nat n) b' :: chunks), c2, w2.
      simpl. rewrite HR, HRs. split; [reflexivity|].
      split; [|split; assumption].
      rewrite Hcat. symmetry. exact Heq1.
Qed.

(** Under a limiter that never grants anything, over a connection whose
    errors come without bytes, no [Read] delivers a byte. *)
Lemma Read_calls_zero_grant (l : limiter.Limiter LW) (bufs : list bytes) :
  (forall w n, 0 <= n -> fst (limiter.Wait l w n) = 0) ->
  Read_in_bounds ->
  (forall (c : C) b n e b' c', conn_Read c b = (n, Some e, b', c') -> n = 0) ->
  forall (c : @serverConn LW C) (w : LW),
  sc_In c = Some l ->
  exists chunks c' w',
    Read_calls c w bufs = Return (chunks, c', w') /\ concat chunks = [].
Proof.
  intros Hzero Hb Herr.
  assert (limiter.within_request l) as Hl.
  { intros w n Hn. rewrite Hzero by exact Hn. lia. }
  induction bufs as [|b bufs IH]; intros c w HIn.
  - exists [], c, w. split; reflexivity.
  - assert (exists err b' c1 w1,
               serverConn_Read c w b = Return (0, err, b', c1, w1)
               /\ sc_In c1 = Some l) as (err & b' & c1 & w1 & HR & HIn1).
    { destruct (sc_rbuf c) as [|x buf] eqn:Hbuf.
      - destruct (conn_Read (sc_Conn c) b) as [[[nn err] b'] conn] eqn:HR.
        destruct err as [e|].
        + pose proof (Herr _ _ _ _ _ _ HR) as ->.
          exists (Some e), b', (with_Conn c conn), w.
          rewrite (Read_error c w b l 0 e b' conn HIn Hbuf HR). auto.
        + destruct (limiter.Wait l w nn) as [n w'] eqn:HW.
          destruct (Hb _ _ _ _ _ _ HR) as [Hnn _].
          pose proof (Hzero w nn (proj1 Hnn)) as Hn.
          rewrite HW in Hn. simpl in Hn. subst n.
          destruct (Read_network c w b l nn b' conn 0 w' HIn Hl Hb Hbuf HR HW)
            as [-> _].
          eexists None, b', _, w'. split; [reflexivity|exact HIn].
      - destruct (limiter.Wait l w (Z.min (len b) (len (sc_rbuf c))))
          as [g w'] eqn:HW.
        pose proof (len_nonneg b). pose proof (len_nonneg (sc_rbuf c)).
        assert (0 <= Z.min (len b) (len (sc_rbuf c))) as Hmin by lia.
        pose proof (Hzero w (Z.min (len b) (len (sc_rbuf c))) Hmin) as Hg.
        rewrite HW in Hg. simpl in Hg. subst g.
        assert (sc_rbuf c <> []) as Hne by (rewrite Hbuf; discriminate).
        eexists None, _, _, w'.
        rewrite (Read_staged c w b l 0 w' HIn Hl Hne HW).
        split; [reflexivity|exact HIn]. }
    destruct (IH c1 w1 HIn1) as (chunks & c2 & w2 & HRs & Hcat).
    exists (firstn (Z.to_nat 0) b' :: chunks), c2, w2.
    simpl. rewrite HR, HRs. split; [reflexivity|exact Hcat].
Qed.

(** C1, as the code has it. Stream no-loss and ordering: under a limiter
    with [0 <= granted <= requested], successive [Read]s never panic, and
    the bytes staged at the start followed by the bytes the connection
    had yet to hand out are, in order, the delivered chunks, the bytes
    staged at the end and the bytes the connection has still to hand out:
    nothing is duplicated, dropped or reordered, and staged bytes precede
    newer ones.  The chunks are the whole sequence once the limiter grants
    at least one byte whenever one is requested, the connection hands out
    at least one byte while some are pending, and the caller has made as
    many [Read]s with non-empty slices as there were bytes. *)
Theorem serverConn_Read_no_loss (pending : C -> bytes)
    (c : @serverConn LW C) (w : LW) (bufs : list bytes) :
  Read_in_bounds ->
  delivers_stream pending ->
  (forall l, sc_In c = Some l -> limiter.within_request l) ->
  (sc_In c = None -> sc_rbuf c = []) ->
  exists chunks c' w',
    Read_calls c w bufs = Return (chunks, c', w')
    /\ sc_rbuf c ++ pending (sc_Conn c)
       = concat chunks ++ sc_rbuf c' ++ pending (sc_Conn c')
    /\ (stream_progress pending ->
        (forall l, sc_In c = Some l -> limiter.makes_progress l) ->
        Forall (fun b => b <> []) bufs ->
        (List.length (sc_rbuf c ++ pending (sc_Conn c))
         <= List.length bufs)%nat ->
        concat chunks = sc_rbuf c ++ pending (sc_Conn c)
        /\ sc_rbuf c' = [] /\ pending (sc_Conn c') = []).
Proof.
  intros Hb Hstream Hlim Hfast.
  destruct (Read_calls_stream pending bufs Hb Hstream c w Hlim Hfast)
    as (chunks & c' & w' & HR & Heq).
  exists chunks, c', w'.
  split; [exact HR|]. split; [exact Heq|].
  intros Hprog Hplim Hne Hlen.
  destruct (Read_calls_drain_stream pending bufs Hb Hstream Hprog c w
              Hlim Hplim Hfast Hne Hlen)
    as (chunks1 & c1 & w1 & HR1 & Hcat & Hr & Hp).
  rewrite HR in HR1. injection HR1 as <- <- <-. auto.
Qed.

(** C5, as the code has it. Read error propagation: with an ingress
    limiter and an empty staging buffer, an error of the underlying read is
    returned unchanged together with the byte count [nn] of that read (not
    zero when the read also produced bytes); the limiter is not consulted
    and nothing is staged. *)
Theorem serverConn_Read_error_passthrough
    (c : @serverConn LW C) (w : LW) (b : bytes) l nn e b' conn :
  sc_In c = Some l ->
  sc_rbuf c = [] ->
  conn_Read (sc_Conn c) b = (nn, Some e, b', conn) ->
  exists c',
    serverConn_Read c w b = Return (nn, Some e, b', c', w)
    /\ sc_Conn c' = conn /\ sc_rbuf c' = [].
Proof.
  intros HIn Hbuf HR. exists (with_Conn c conn).
  rewrite (Read_error c w b l nn e b' conn HIn Hbuf HR).
  simpl. auto.
Qed.

(** C6. Staged-bytes read path: with an ingress limiter honouring its
    contract and a non-empty staging buffer, [Read] leaves the underlying
    connection alone, asks [Wait(min(len(b), rbuf.Len()))], moves exactly
    the granted bytes from the front of the staging buffer into [b] and
    returns [(granted, nil)]. *)
Theorem serverConn_Read_staged_first
    (c : @serverConn LW C) (w : LW) (b : bytes) l granted w' :
  sc_In c = Some l ->
  limiter.within_request l ->
  sc_rbuf c <> [] ->
  limiter.Wait l w (Z.min (len b) (len (sc_rbuf c))) = (granted, w') ->
  exists b' c',
    serverConn_Read c w b = Return (granted, None, b', c', w')
    /\ sc_Conn c' = sc_Conn c
    /\ firstn (Z.to_nat granted) b' = firstn (Z.to_nat granted) (sc_rbuf c)
    /\ skipn (Z.to_nat granted) b' = skipn (Z.to_nat granted) b
    /\ sc_rbuf c' = skipn (Z.to_nat granted) (sc_rbuf c)
    /\ 0 <= granted <= Z.min (len b) (len (sc_rbuf c)).
Proof.
  intros HIn Hl Hne HW.
  pose proof (len_nonneg b). pose proof (len_nonneg (sc_rbuf c)).
  pose proof (Hl w (Z.min (len b) (len (sc_rbuf c)))) as Hg.
  rewrite HW in Hg. simpl in Hg.
  assert (0 <= granted <= Z.min (len b) (len (sc_rbuf c))) as Hg'
    by (apply Hg; lia).
  assert (List.length (firstn (Z.to_nat granted) (sc_rbuf c)) = Z.to_nat granted)
    as Hlen by (rewrite length_firstn; unfold len in Hg'; lia).
  eexists _, _.
  rewrite (Read_staged c w b l granted w' HIn Hl Hne HW).
  split; [reflexivity|]. simpl. repeat split; try lia.
  - rewrite firstn_app, Hlen, Nat.sub_diag. simpl. rewrite app_nil_r.
    rewrite firstn_firstn, Nat.min_id. reflexivity.
  - rewrite skipn_app, Hlen, Nat.sub_diag. simpl.
    rewrite <- Hlen at 1. rewrite skipn_all. reflexivity.
Qed.
End StreamRead.

(** ** The write path of serverConn *)

Section StreamWrite.
Context {LW : Type} {C : Type} `{NetConn C}.

Lemma total_len_concat (chunks : list bytes) :
  total_len chunks = len (concat chunks).
Proof.
  induction chunks as [|ch chunks IH]; simpl; [reflexivity|].
  now rewrite len_app, IH.
Qed.

Lemma Write_loop_done fuel (l : limiter.Limiter LW) (conn : C) w b n :
  len b = 0 -> Write_loop fuel l conn w b n = Some (Return (n, None, conn, w)).
Proof.
  intros E. destruct fuel; simpl; rewrite E; reflexivity.
Qed.

Lemma Write_loop_spent (l : limiter.Limiter LW) (conn : C) w b n :
  0 < len b -> Write_loop 0 l conn w b n = None.
Proof.
  intros Hpos. simpl. destruct (Z.ltb_spec 0 (len b)); [reflexivity|lia].
Qed.

(** One iteration: the slice written is [b[:granted]]. *)
Lemma Write_loop_step fuel (l : limiter.Limiter LW) (conn : C) w b n granted w' :
  limiter.within_request l ->
  0 < len b ->
  limiter.Wait l w (len b) = (granted, w') ->
  0 <= granted <= len b /\
  Write_loop (S fuel) l conn w b n =
  let '(nn, err, conn') := conn_Write conn (firstn (Z.to_nat granted) b) in
  match err with
  | Some e => Some (Return (n + nn, Some e, conn', w'))
  | None =>
      match slice b nn (len b) with
      | None => Some Panic
      | Some rest => Write_loop fuel l conn' w' rest (n + nn)
      end
  end.
Proof.
  intros Hl Hpos HW.
  pose proof (Hl w (len b)) as Hg. rewrite HW in Hg. simpl in Hg.
  assert (0 <= granted <= len b) as Hg' by (apply Hg; lia).
  split; [exact Hg'|].
  simpl. destruct (Z.ltb_spec 0 (len b)); [|lia].
  rewrite HW, slice_prefix by exact Hg'. reflexivity.
Qed.

(** What a finished run of the loop has done. *)
Lemma Write_loop_chunks (issued : C -> list bytes) (l : limiter.Limiter LW) :
  limiter.within_request l ->
  Write_in_bounds ->
  records_writes issued ->
  forall fuel (conn : C) w b n r,
  Write_loop fuel l conn w b n = Some r ->
  exists m err conn' w' chunks,
    r = Return (n + m, err, conn', w')
    /\ issued conn' = issued conn ++ chunks
    /\ paced l w b chunks
    /\ (err = None -> concat chunks = b /\ m = len b)
    /\ (forall e, err = Some e ->
        exists done last c1 nn rest,
          chunks = done ++ [last]
          /\ conn_Write c1 last = (nn, Some e, conn')
          /\ m = len (concat done) + nn
          /\ b = concat done ++ last ++ rest).
Proof.
  intros Hl Hb Hrec.
  induction fuel as [|fuel IH]; intros conn w b n r Hrun.
  - destruct (Z.ltb_spec 0 (len b)) as [Hpos|Hz].
    + rewrite Write_loop_spent in Hrun by exact Hpos. discriminate.
    + assert (len b = 0) as E by (pose proof (len_nonneg b); lia).
      rewrite Write_loop_done in Hrun by exact E.
      injection Hrun as <-. apply len_nil_iff in E. subst b.
      exists 0, None, conn, w, []. rewrite Z.add_0_r, app_nil_r.
      repeat split; try reflexivity; try constructor. intros e He. discriminate.
  - destruct (Z.ltb_spec 0 (len b)) as [Hpos|Hz].
    2:{ assert (len b = 0) as E by (pose proof (len_nonneg b); lia).
        rewrite Write_loop_done in Hrun by exact E.
        injection Hrun as <-. apply len_nil_iff in E. subst b.
        exists 0, None, conn, w, []. rewrite Z.add_0_r, app_nil_r.
        repeat split; try reflexivity; try constructor.
        intros e He. discriminate. }
    destruct (limiter.Wait l w (len b)) as [g w1] eqn:HW.
    destruct (Write_loop_step fuel l conn w b n g w1 Hl Hpos HW) as [Hg Hstep].
    rewrite Hstep in Hrun. clear Hstep.
    destruct (conn_Write conn (firstn (Z.to_nat g) b)) as [[nn err] conn1] eqn:HWr.
    destruct (Hb _ _ _ _ _ HWr) as [Hnn Hfull].
    pose proof (Hrec _ _ _ _ _ HWr) as Hlog.
    rewrite len_firstn in Hnn, Hfull by exact Hg.
    destruct err as [e|].
    + injection Hrun as <-.
      exists nn, (Some e), conn1, w1, [firstn (Z.to_nat g) b].
      split; [reflexivity|]. split; [exact Hlog|].
      split; [econstructor; [exact HW|constructor]|].
      split; [discriminate|].
      intros e' He'. injection He' as <-.
      exists [], (firstn (Z.to_nat g) b), conn, nn, (skipn (Z.to_nat g) b).
      simpl. repeat split; try assumption.
      now rewrite firstn_skipn.
    + specialize (Hfull eq_refl). subst nn.
      rewrite slice_suffix in Hrun by exact Hg.
      destruct (IH _ _ _ _ _ Hrun)
        as (m & err & conn' & w' & chunks & -> & Hlog' & Hpaced & Hok & Herr).
      exists (g + m), err, conn', w', (firstn (Z.to_nat g) b :: chunks).
      split; [f_equal; f_equal; f_equal; f_equal; lia|].
      split; [rewrite Hlog', Hlog, <- app_assoc; reflexivity|].
      split; [econstructor; [exact HW|exact Hpaced]|].
      split.
      * intros E. destruct (Hok E) as [Hcat Hm]. simpl.
        rewrite Hcat, firstn_skipn. split; [reflexivity|].
        rewrite Hm, len_skipn by exact Hg. lia.
      * intros e He.
        destruct (Herr e He) as (done & last & c1 & nn & rest & -> & HWl & Hm & Hrest).
        exists (firstn (Z.to_nat g) b :: done), last, c1, nn, rest.
        split; [reflexivity|]. split; [exact HWl|]. simpl.
        split.
        -- rewrite len_app, len_firstn by exact Hg. lia.
        -- rewrite <- app_assoc, <- Hrest. now rewrite firstn_skipn.
Qed.

(** With a limiter that makes progress the loop ends within [len(b)]
    iterations, and it ends by returning. *)
Lemma Write_loop_returns (l : limiter.Limiter LW) :
  limiter.within_request l ->
  limiter.makes_progress l ->
  Write_in_bounds ->
  forall fuel (conn : C) w b n,
  (List.length b <= fuel)%nat ->
  exists m err conn' w',
    Write_loop fuel l conn w b n = Some (Return (m, err, conn', w')).
Proof.
  intros Hl Hp Hb.
  induction fuel as [|fuel IH]; intros conn w b n Hfuel.
  - destruct b; [|simpl in Hfuel; lia].
    rewrite Write_loop_done by reflexivity. eauto.
  - destruct (Z.ltb_spec 0 (len b)) as [Hpos|Hz].
    2:{ rewrite Write_loop_done by (pose proof (len_nonneg b); lia). eauto. }
    destruct (limiter.Wait l w (len b)) as [g w1] eqn:HW.
    destruct (Write_loop_step fuel l conn w b n g w1 Hl Hpos HW) as [Hg ->].
    pose proof (Hp w (len b) Hpos) as Hg1. rewrite HW in Hg1. simpl in Hg1.
    destruct (conn_Write conn (firstn (Z.to_nat g) b)) as [[nn err] conn1] eqn:HWr.
    destruct (Hb _ _ _ _ _ HWr) as [Hnn Hfull].
    rewrite len_firstn in Hnn, Hfull by exact Hg.
    destruct err as [e|]; [eauto|].
    specialize (Hfull eq_refl). subst nn.
    rewrite slice_suffix by exact Hg.
    apply IH. rewrite length_skipn. unfold len in *. lia.
Qed.

(** A run of the loop that returns does so with any more fuel. *)
Lemma Write_loop_more_fuel (l : limiter.Limiter LW) :
  limiter.within_request l ->
  forall fuel extra (conn : C) w b n r,
  Write_loop fuel l conn w b n = Some r ->
  Write_loop (fuel + extra) l conn w b n = Some r.
Proof.
  intros Hl.
  induction fuel as [|fuel IH]; intros extra conn w b n r Hrun.
  - destruct (Z.ltb_spec 0 (len b)) as [Hpos|Hz].
    + rewrite Write_loop_spent in Hrun by exact Hpos. discriminate.
    + assert (len b = 0) as E by (pose proof (len_nonneg b); lia).
      rewrite Write_loop_done in Hrun by exact E.
      rewrite Write_loop_done by exact E. exact Hrun.
  - destruct (Z.ltb_spec 0 (len b)) as [Hpos|Hz].
    2:{ assert (len b = 0) as E by (pose proof (len_nonneg b); lia).
        rewrite Write_loop_done in Hrun by exact E.
        rewrite Write_loop_done by exact E. exact Hrun. }
    destruct (limiter.Wait l w (len b)) as [g w1] eqn:HW.
    destruct (Write_loop_step fuel l conn w b n g w1 Hl Hpos HW) as [_ Hstep].
    destruct (Write_loop_step (fuel + extra) l conn w b n g w1 Hl Hpos HW)
      as [_ Hstep'].
    rewrite Hstep in Hrun. cbn [Nat.add]. rewrite Hstep'.
    destruct (conn_Write conn (firstn (Z.to_nat g) b)) as [[nn err] conn1].
    destruct err as [e|]; [exact Hrun|].
    destruct (slice b nn (len b)); [|exact Hrun].
    apply IH. exact Hrun.
Qed.

(** C3, as the code has it. Write chunking: with an egress limiter that
    grants at least one byte whenever one is requested and never more
    than requested, over a connection whose short writes come with an
    error, [Write] returns within [len(b)] iterations, with the same
    result for any fuel that lets it return; the slices it passed to the
    underlying connection are successive prefixes [b[:granted]] of what
    remained; without an error they concatenate to [b], their lengths sum
    to [len(b)] and [n = len(b)]; with an error the failing write is the
    last one issued, and [n] is the bytes written before it plus its own
    count. *)
Theorem serverConn_Write_chunking (issued : C -> list bytes)
    (c : @serverConn LW C) (w : LW) (b : bytes) l :
  sc_Out c = Some l ->
  limiter.within_request l ->
  limiter.makes_progress l ->
  Write_in_bounds ->
  records_writes issued ->
  exists n err c' w' chunks,
    serverConn_Write (List.length b) c w b = Some (Return (n, err, c', w'))
    /\ (forall fuel r,
          serverConn_Write fuel c w b = Some r ->
          r = Return (n, err, c', w'))
    /\ issued (sc_Conn c') = issued (sc_Conn c) ++ chunks
    /\ paced l w b chunks
    /\ (err = None ->
        concat chunks = b /\ total_len chunks = len b /\ n = len b)
    /\ (forall e, err = Some e ->
        exists done last c1 nn rest,
          chunks = done ++ [last]
          /\ conn_Write c1 last = (nn, Some e, sc_Conn c')
          /\ n = total_len done + nn
          /\ b = concat done ++ last ++ rest).
Proof.
  intros HOut Hl Hp Hb Hrec.
  destruct (Write_loop_returns l Hl Hp Hb (List.length b) (sc_Conn c) w b 0
              (Nat.le_refl _)) as (m & err & conn' & w' & Hloop).
  destruct (Write_loop_chunks issued l Hl Hb Hrec _ _ _ _ _ _ Hloop)
    as (m' & err' & conn'' & w'' & chunks & Hres & Hlog & Hpaced & Hok & Herr).
  injection Hres as -> -> -> ->.
  exists m', err', (with_Conn c conn''), w'', chunks.
  split; [unfold serverConn_Write; now rewrite HOut, Hloop|].
  split.
  - intros fuel r Hrun. unfold serverConn_Write in Hrun. rewrite HOut in Hrun.
    destruct (Write_loop fuel l (sc_Conn c) w b 0) as [r0|] eqn:Hfuel;
      [|discriminate].
    pose proof (Write_loop_more_fuel l Hl _ (List.length b) _ _ _ _ _ Hfuel)
      as Hup.
    pose proof (Write_loop_more_fuel l Hl _ fuel _ _ _ _ _ Hloop) as Hup'.
    rewrite Nat.add_comm, Hup' in Hup. injection Hup as <-.
    injection Hrun as <-. reflexivity.
  - cbn [sc_Conn with_Conn].
    split; [exact Hlog|]. split; [exact Hpaced|]. split.
    + intros E. destruct (Hok E) as [Hcat Hm].
      rewrite total_len_concat, Hcat. auto.
    + intros e He.
      destruct (Herr e He) as (done & last & c1 & nn & rest & ? & ? & ? & ?).
      exists done, last, c1, nn, rest. rewrite total_len_concat. auto.
Qed.

(** C9, as the code has it. Write termination: with an egress limiter that
    grants at least one byte whenever at least one is requested (and never
    more than requested), over a connection whose short writes come with an
    error, [Write] returns after at most [len(b)] iterations of its loop. *)
Theorem serverConn_Write_terminates
    (c : @serverConn LW C) (w : LW) (b : bytes) l :
  sc_Out c = Some l ->
  limiter.within_request l ->
  limiter.makes_progress l ->
  Write_in_bounds ->
  exists n err c' w',
    serverConn_Write (List.length b) c w b = Some (Return (n, err, c', w')).
Proof.
  intros HOut Hl Hp Hb. unfold serverConn_Write. rewrite HOut.
  destruct (Write_loop_returns l Hl Hp Hb (List.length b) (sc_Conn c) w b 0
              (Nat.le_refl _)) as (m & err & conn' & w' & ->).
  eauto.
Qed.
End StreamWrite.

(** ** The datagram wrappers *)

Section DatagramFacts.
Context {LW : Type} {P : Type} `{PacketConn P}.
Variable SplitHostPort : string -> string * string * option error.








(** *** The write side *)

Ltac resolve_host :=
  match goal with
  | |- context [SplitHostPort ?s] =>
      let E := fresh "Hsplit" in
      destruct (SplitHostPort s) as [[? ?] ?] eqn:E;
      unfold hostKey in *; rewrite E in *
  end.

Ltac egress_cases Hyp :=
  let rl := fresh "rl" in
  let l := fresh "l" in
  let g := fresh "g" in
  let E1 := fresh "Erl" in
  let E2 := fresh "EOut" in
  let E3 := fresh "EWait" in
  let E4 := fresh "Eg" in
  destruct Hyp as [[E1 E4]|[(rl & E1 & E2 & E4)|(rl & l & g & E1 & E2 & E3 & E4)]];
  rewrite E1; try resolve_host;
  try rewrite E2; try rewrite E3;
  try (match goal with
       | |- context [?x <? ?y] => destruct (Z.ltb_spec x y); [lia|]
       end);
  try rewrite E4.

Ltac dropped_case Hyp :=
  let rl := fresh "rl" in
  let l := fresh "l" in
  let g := fresh "g" in
  let E1 := fresh "Erl" in
  let E2 := fresh "EOut" in
  let E3 := fresh "EWait" in
  let E4 := fresh "Eg" in
  destruct Hyp as (rl & l & g & E1 & E2 & E3 & E4);
  rewrite E1; try resolve_host;
  rewrite E2, E3;
  match goal with
  | |- context [?x <? ?y] => destruct (Z.ltb_spec x y); [|lia]
  end.

Lemma packetConn_WriteTo_dropped (c : @packetConn LW P) w p a w' :
  dropped_egress (pc_rlimiter c) (hostKey SplitHostPort (addr_String a))
    (len p) w w' ->
  packetConn_WriteTo SplitHostPort c w p (Some a) = Return (len p, None, c, w').
Proof.
  intros Hd. unfold packetConn_WriteTo. dropped_case Hd. reflexivity.
Qed.

Lemma packetConn_WriteTo_passes (c : @packetConn LW P) w p a w' :
  passes_egress (pc_rlimiter c) (hostKey SplitHostPort (addr_String a))
    (len p) w w' ->
  packetConn_WriteTo SplitHostPort c w p (Some a) =
  let '(n, err, pc) := pconn_WriteTo (pc_PacketConn c) p (Some a) in
  Return (n, err, {| pc_PacketConn := pc; pc_rlimiter := pc_rlimiter c |}, w').
Proof.
  intros Hp. unfold packetConn_WriteTo. egress_cases Hp; reflexivity.
Qed.

Lemma udpConn_WriteTo_dropped (c : @udpConn LW P) w p a w' :
  dropped_egress (uc_rlimiter c) (hostKey SplitHostPort (addr_String a))
    (len p) w w' ->
  udpConn_WriteTo SplitHostPort c w p (Some a) = Return (len p, None, c, w').
Proof.
  intros Hd. unfold udpConn_WriteTo. dropped_case Hd. reflexivity.
Qed.

Lemma udpConn_WriteTo_passes (c : @udpConn LW P) w p a w' :
  passes_egress (uc_rlimiter c) (hostKey SplitHostPort (addr_String a))
    (len p) w w' ->
  udpConn_WriteTo SplitHostPort c w p (Some a) =
  let '(n, err, pc) := pconn_WriteTo (uc_PacketConn c) p (Some a) in
  Return (n, err, uc_with c pc, w').
Proof.
  intros Hp. unfold udpConn_WriteTo. egress_cases Hp; reflexivity.
Qed.

Lemma udpConn_WriteToUDP_dropped (c : @udpConn LW P) w b addr w' :
  dropped_egress (uc_rlimiter c) (hostKey SplitHostPort (UDPAddr_String addr))
    (len b) w w' ->
  udpConn_WriteToUDP SplitHostPort c w b addr = (len b, None, c, w').
Proof.
  intros Hd. unfold udpConn_WriteToUDP. dropped_case Hd. reflexivity.
Qed.

Lemma udpConn_WriteToUDP_passes (c : @udpConn LW P) w b addr w' :
  passes_egress (uc_rlimiter c) (hostKey SplitHostPort (UDPAddr_String addr))
    (len b) w w' ->
  udpConn_WriteToUDP SplitHostPort c w b addr =
  match as_WriteUDP with
  | Some nc =>
      let '(n, err, pc) := WriteToUDP nc (uc_PacketConn c) b addr in
      (n, err, uc_with c pc, w')
  | None => (0, Some errUnsupport, c, w')
  end.
Proof.
  intros Hp. unfold udpConn_WriteToUDP. egress_cases Hp; reflexivity.
Qed.

Lemma udpConn_WriteMsgUDP_dropped (c : @udpConn LW P) w b oob addr w' :
  dropped_egress (uc_rlimiter c) (hostKey SplitHostPort (UDPAddr_String addr))
    (len b) w w' ->
  udpConn_WriteMsgUDP SplitHostPort c w b oob addr = (len b, 0, None, c, w').
Proof.
  intros Hd. unfold udpConn_WriteMsgUDP. dropped_case Hd. reflexivity.
Qed.

Lemma udpConn_WriteMsgUDP_passes (c : @udpConn LW P) w b oob addr w' :
  passes_egress (uc_rlimiter c) (hostKey SplitHostPort (UDPAddr_String addr))
    (len b) w w' ->
  udpConn_WriteMsgUDP SplitHostPort c w b oob addr =
  match as_WriteUDP with
  | Some nc =>
      let '(n, oobn, err, pc) := WriteMsgUDP nc (uc_PacketConn c) b oob addr in
      (n, oobn, err, uc_with c pc, w')
  | None => (0, 0, Some errUnsupport, c, w')
  end.
Proof.
  intros Hp. unfold udpConn_WriteMsgUDP. egress_cases Hp; reflexivity.
Qed.


(** C4. Datagram write silent drop: when an egress limiter exists for the
    destination host and grants fewer than [len(buffer)] bytes, [WriteTo]
    of both wrappers, [WriteToUDP] and [WriteMsgUDP] leave the underlying
    connection untouched and return [(len(buffer), nil)]. *)
Theorem WriteTo_silent_drop :
  (forall (c : @packetConn LW P) w p a w',
     dropped_egress (pc_rlimiter c) (hostKey SplitHostPort (addr_String a))
       (len p) w w' ->
     packetConn_WriteTo SplitHostPort c w p (Some a)
     = Return (len p, None, c, w'))
  /\ (forall (c : @udpConn LW P) w p a w',
        dropped_egress (uc_rlimiter c) (hostKey SplitHostPort (addr_String a))
          (len p) w w' ->
        udpConn_WriteTo SplitHostPort c w p (Some a)
        = Return (len p, None, c, w'))
  /\ (forall (c : @udpConn LW P) w b oob addr w',
        dropped_egress (uc_rlimiter c)
          (hostKey SplitHostPort (UDPAddr_String addr)) (len b) w w' ->
        udpConn_WriteToUDP SplitHostPort c w b addr = (len b, None, c, w')
        /\ udpConn_WriteMsgUDP SplitHostPort c w b oob addr
           = (len b, 0, None, c, w')).
Proof.
  split; [|split].
  - intros. now apply packetConn_WriteTo_dropped.
  - intros. now apply udpConn_WriteTo_dropped.
  - intros. split.
    + now apply udpConn_WriteToUDP_dropped.
    + now apply udpConn_WriteMsgUDP_dropped.
Qed.

(** C10. In [WriteToUDP] and [WriteMsgUDP] the rate-limit check comes
    before the capability probe: over a connection without [udp.WriteUDP],
    a datagram the egress limiter cuts short is reported as sent,
    [(len(b), nil)]; the unsupported-operation error comes back only when
    the datagram passes the check (no limiter applies, or a full grant). *)
Theorem WriteUDP_limit_before_probe
    (c : @udpConn LW P) (w : LW) (b oob : bytes) (addr : option UDPAddr) w' :
  as_WriteUDP (P := P) = None ->
  (dropped_egress (uc_rlimiter c)
     (hostKey SplitHostPort (UDPAddr_String addr)) (len b) w w' ->
   udpConn_WriteToUDP SplitHostPort c w b addr = (len b, None, c, w')
   /\ udpConn_WriteMsgUDP SplitHostPort c w b oob addr
      = (len b, 0, None, c, w'))
  /\ (passes_egress (uc_rlimiter c)
        (hostKey SplitHostPort (UDPAddr_String addr)) (len b) w w' ->
      udpConn_WriteToUDP SplitHostPort c w b addr
      = (0, Some errUnsupport, c, w')
      /\ udpConn_WriteMsgUDP SplitHostPort c w b oob addr
         = (0, 0, Some errUnsupport, c, w')).
Proof.
  intros Hcap. split.
  - intros Hd. split.
    + now apply udpConn_WriteToUDP_dropped.
    + now apply udpConn_WriteMsgUDP_dropped.
  - intros Hp. split.
    + rewrite (udpConn_WriteToUDP_passes c w b addr w' Hp), Hcap. reflexivity.
    + rewrite (udpConn_WriteMsgUDP_passes c w b oob addr w' Hp), Hcap.
      reflexivity.
Qed.

(** C8, as the code has it. Capability probes of [udpConn]: when the
    underlying connection lacks the optional interface, buffer sizing,
    plain read and write, the UDP-typed reads and raw-handle access fail
    with the unsupported-operation error and leave connection and limiter
    alone; the UDP-typed writes do so for a datagram that passes the
    egress check; [RemoteAddr], which has no error result, returns a nil
    address; [SetDSCP] succeeds with a nil error and does nothing. *)
Theorem udpConn_probe_failure (c : @udpConn LW P) (w : LW) :
  (as_SetBuffer (P := P) = None ->
   forall n, udpConn_SetReadBuffer c n = (Some errUnsupport, c)
             /\ udpConn_SetWriteBuffer c n = (Some errUnsupport, c))
  /\ (as_Reader (P := P) = None ->
      forall b, udpConn_Read c b = (0, Some errUnsupport, b, c))
  /\ (as_Writer (P := P) = None ->
      forall b, udpConn_Write c b = (0, Some errUnsupport, c))
  /\ (as_ReadUDP (P := P) = None ->
      forall fuel b oob,
        udpConn_ReadFromUDP SplitHostPort fuel c w b
        = Some (0, None, Some errUnsupport, b, c, w)
        /\ udpConn_ReadMsgUDP SplitHostPort fuel c w b oob
           = Some (0, 0, 0, None, Some errUnsupport, b, oob, c, w))
  /\ (as_SyscallConn (P := P) = None ->
      udpConn_SyscallConn c = (None, Some errUnsupport, c))
  /\ (as_WriteUDP (P := P) = None ->
      forall b oob addr w',
        passes_egress (uc_rlimiter c)
          (hostKey SplitHostPort (UDPAddr_String addr)) (len b) w w' ->
        udpConn_WriteToUDP SplitHostPort c w b addr
        = (0, Some errUnsupport, c, w')
        /\ udpConn_WriteMsgUDP SplitHostPort c w b oob addr
           = (0, 0, Some errUnsupport, c, w'))
  /\ (as_RemoteAddr (P := P) = None -> udpConn_RemoteAddr c = None)
  /\ (as_SetDSCP (P := P) = None ->
      forall n, udpConn_SetDSCP c n = (None, c)).
Proof.
  repeat match goal with |- _ /\ _ => split end; intros Hcap; intros.
  - unfold udpConn_SetReadBuffer, udpConn_SetWriteBuffer.
    now rewrite Hcap.
  - unfold udpConn_Read. now rewrite Hcap.
  - unfold udpConn_Write. now rewrite Hcap.
  - unfold udpConn_ReadFromUDP, udpConn_ReadMsgUDP. now rewrite Hcap.
  - unfold udpConn_SyscallConn. now rewrite Hcap.
  - rewrite (udpConn_WriteToUDP_passes c w b addr w') by assumption.
    rewrite (udpConn_WriteMsgUDP_passes c w b oob addr w') by assumption.
    now rewrite Hcap.
  - unfold udpConn_RemoteAddr. now rewrite Hcap.
  - unfold udpConn_SetDSCP. now rewrite Hcap.
Qed.
End DatagramFacts.

(** ** The fast path *)

Section FastPath.
Context {LW : Type} {C : Type} {P : Type} `{NetConn C} `{PacketConn P}.
Variable SplitHostPort : string -> string * string * option error.

(** C7. Fast-path equivalence: [WrapConn] and [WrapPacketConn] return
    their argument itself for a nil rate limiter, while [WrapUDPConn]
    builds a wrapper even then; and where no limiter applies (a nil rate
    limiter, or one that returns nil for the host), [Read], [Write],
    [ReadFrom] and [WriteTo] of the wrappers give exactly the result of
    the same call on the underlying connection, and leave the limiter
    state alone. *)
Theorem fast_path_equivalence :
  (forall c : C, WrapConn (LW := LW) SplitHostPort None c = Return (Raw c))
  /\ (forall pc : P, WrapPacketConn (LW := LW) None pc = RawPacket pc)
  /\ (forall rl (pc : P),
        WrapUDPConn (LW := LW) rl pc
        = {| uc_PacketConn := pc; uc_rlimiter := rl |})
  /\ (forall (c : @serverConn LW C) w b,
        sc_In c = None ->
        serverConn_Read c w b =
        let '(n, err, b', conn) := conn_Read (sc_Conn c) b in
        Return (n, err, b', with_Conn c conn, w))
  /\ (forall fuel (c : @serverConn LW C) w b,
        sc_Out c = None ->
        serverConn_Write fuel c w b =
        let '(n, err, conn) := conn_Write (sc_Conn c) b in
        Some (Return (n, err, with_Conn c conn, w)))
  /\ (forall fuel (c : @packetConn LW P) w p n addr err p1 pc1,
        pconn_ReadFrom (pc_PacketConn c) p = (n, addr, err, p1, pc1) ->
        err <> None
        \/ (exists a, addr = Some a
            /\ rl_In (pc_rlimiter c) (hostKey SplitHostPort (addr_String a))
               = None) ->
        packetConn_ReadFrom SplitHostPort (S fuel) c w p =
        Some (Return (n, addr, err, p1,
                      {| pc_PacketConn := pc1; pc_rlimiter := pc_rlimiter c |},
                      w)))
  /\ (forall (c : @packetConn LW P) w p a rl,
        pc_rlimiter c = Some rl ->
        limiter.Out rl (hostKey SplitHostPort (addr_String a)) = None ->
        packetConn_WriteTo SplitHostPort c w p (Some a) =
        let '(n, err, pc) := pconn_WriteTo (pc_PacketConn c) p (Some a) in
        Return (n, err,
                {| pc_PacketConn := pc; pc_rlimiter := pc_rlimiter c |}, w))
  /\ (forall fuel (c : @udpConn LW P) w p n addr err p1 pc1,
        pconn_ReadFrom (uc_PacketConn c) p = (n, addr, err, p1, pc1) ->
        err <> None
        \/ (exists a, addr = Some a
            /\ rl_In (uc_rlimiter c) (hostKey SplitHostPort (addr_String a))
               = None) ->
        udpConn_ReadFrom SplitHostPort (S fuel) c w p =
        Some (Return (n, addr, err, p1, uc_with c pc1, w)))
  /\ (forall (c : @udpConn LW P) w p addr,
        uc_rlimiter c = None
        \/ (exists rl a, uc_rlimiter c = Some rl /\ addr = Some a
            /\ limiter.Out rl (hostKey SplitHostPort (addr_String a)) = None) ->
        udpConn_WriteTo SplitHostPort c w p addr =
        let '(n, err, pc) := pconn_WriteTo (uc_PacketConn c) p addr in
        Return (n, err, uc_with c pc, w)).
Proof.
  repeat match goal with |- _ /\ _ => split end.
  - reflexivity.
  - reflexivity.
  - reflexivity.
  - intros c w b HIn. unfold serverConn_Read. now rewrite HIn.
  - intros fuel c w b HOut. unfold serverConn_Write. now rewrite HOut.
  - intros fuel c w p n addr err p1 pc1 HR Hfast.
    cbn [packetConn_ReadFrom]. rewrite HR. cbn [pc_rlimiter].
    destruct Hfast as [Herr|(a & -> & HIn)].
    + destruct err; [reflexivity|congruence].
    + destruct err; [reflexivity|].
      unfold hostKey in HIn.
      destruct (SplitHostPort (addr_String a)) as [[host port] e].
      now rewrite HIn.
  - intros c w p a rl Hrl HOut.
    apply packetConn_WriteTo_passes. right. left. eauto.
  - intros fuel c w p n addr err p1 pc1 HR Hfast.
    cbn [udpConn_ReadFrom]. rewrite HR. cbn [uc_rlimiter uc_with].
    destruct Hfast as [Herr|(a & -> & HIn)].
    + destruct err; [reflexivity|congruence].
    + destruct err; [reflexivity|].
      unfold hostKey in HIn.
      destruct (SplitHostPort (addr_String a)) as [[host port] e].
      now rewrite HIn.
  - intros c w p addr [Hnil|(rl & a & Hrl & -> & HOut)].
    + unfold udpConn_WriteTo. now rewrite Hnil.
    + apply udpConn_WriteTo_passes. right. left. eauto.
Qed.
End FastPath.

(** ** The concrete collaborators meet the contracts *)

Lemma capLimiter_within_request (g : Z) :
  0 <= g -> limiter.within_request (capLimiter g).
Proof. intros Hg w n Hn. simpl. lia. Qed.

Lemma capLimiter_makes_progress (g : Z) :
  0 < g -> limiter.makes_progress (capLimiter g).
Proof. intros Hg w n Hn. simpl. lia. Qed.

Lemma copy_spec (dst src : bytes) :
  let '(n, dst') := copy dst src in
  0 <= n <= len dst /\ n <= len src /\ len dst' = len dst
  /\ firstn (Z.to_nat n) dst' = firstn (Z.to_nat n) src.
Proof.
  unfold copy, len.
  set (k := Nat.min (List.length dst) (List.length src)).
  assert (List.length (firstn k src) = k) as Hk
    by (rewrite length_firstn; lia).
  repeat split; try lia.
  - rewrite length_app, Hk, length_skipn. lia.
  - rewrite Nat2Z.id, firstn_app, Hk, Nat.sub_diag. simpl.
    rewrite app_nil_r, firstn_firstn, Nat.min_id. reflexivity.
Qed.

Lemma scriptConn_Read_in_bounds : Read_in_bounds (C := scriptConn).
Proof.
  intros c b n err b' c' HR.
  change (scriptConn_Read c b = (n, err, b', c')) in HR.
  unfold scriptConn_Read in HR.
  destruct (script c) as [|[data e] rest].
  - injection HR as <- <- <- <-. pose proof (len_nonneg b). lia.
  - pose proof (copy_spec b data) as Hc.
    destruct (copy b data) as [k b1].
    destruct (k <? len data); injection HR as <- <- <- <-; lia.
Qed.

Lemma copy_count (dst src : bytes) :
  fst (copy dst src) = Z.min (len dst) (len src).
Proof. unfold copy, len. simpl. lia. Qed.

(** What a [wireConn] read does, in one statement. *)
Lemma wireConn_Read_spec (c : wireConn) (b : bytes) n err b' c' :
  conn_Read c b = (n, err, b', c') ->
  0 <= n <= len b /\ len b' = len b
  /\ wire c = firstn (Z.to_nat n) b' ++ wire c'
  /\ (err <> None -> n = 0)
  /\ (wire c <> [] -> 0 < len b -> 0 < n).
Proof.
  intros HR. change (wireConn_Read c b = (n, err, b', c')) in HR.
  unfold wireConn_Read in HR.
  destruct (wire c) as [|x rest] eqn:Hwire.
  - injection HR as <- <- <- <-. pose proof (len_nonneg b).
    rewrite Hwire. repeat split; try lia; try reflexivity. congruence.
  - rewrite <- Hwire in *.
    set (head := firstn (Z.to_nat (Z.max 1 (chop c))) (wire c)) in *.
    pose proof (copy_spec b head) as Hc.
    pose proof (copy_count b head) as Hmin.
    destruct (copy b head) as [k b1]. cbn [fst] in Hmin.
    destruct Hc as (Hk & Hk' & Hlen & Hpre).
    injection HR as <- <- <- <-. cbn [wire].
    assert (firstn (Z.to_nat k) head = firstn (Z.to_nat k) (wire c)) as Hhead.
    { unfold head. rewrite firstn_firstn. f_equal.
      unfold head, len in Hk'. rewrite length_firstn in Hk'. lia. }
    repeat split; try lia.
    + rewrite Hpre, Hhead. symmetry. apply firstn_skipn.
    + congruence.
    + intros _ Hpos.
      assert (0 < len head) as Hh.
      { unfold head, len. rewrite length_firstn, Hwire. simpl. lia. }
      lia.
Qed.

Lemma wireConn_Read_in_bounds : Read_in_bounds (C := wireConn).
Proof.
  intros c b n err b' c' HR.
  destruct (wireConn_Read_spec c b n err b' c' HR) as (? & ? & _). auto.
Qed.

Lemma wireConn_delivers_stream : delivers_stream (C := wireConn) wire.
Proof.
  intros c b n err b' c' HR.
  destruct (wireConn_Read_spec c b n err b' c' HR) as (_ & _ & ? & _). auto.
Qed.

Lemma wireConn_stream_progress : stream_progress (C := wireConn) wire.
Proof.
  intros c b n err b' c' HR.
  destruct (wireConn_Read_spec c b n err b' c' HR) as (_ & _ & _ & _ & ?). auto.
Qed.

Lemma scriptConn_Write_in_bounds : Write_in_bounds (C := scriptConn).
Proof.
  intros c p nn err c' HW.
  change (scriptConn_Write c p = (nn, err, c')) in HW.
  unfold scriptConn_Write in HW. pose proof (len_nonneg p).
  destruct (Z.leb_spec (len p) (budget c)); injection HW as <- <- <-.
  - split; [lia|reflexivity].
  - split; [lia|discriminate].
Qed.

Lemma scriptConn_records_writes : records_writes (C := scriptConn) written.
Proof.
  intros c p nn err c' HW.
  change (scriptConn_Write c p = (nn, err, c')) in HW.
  unfold scriptConn_Write in HW.
  destruct (len p <=? budget c); injection HW as <- <- <-; reflexivity.
Qed.

(** ** Examples *)

(** The scenario of the specification: twelve bytes, five a call, a
    caller's buffer of twelve: reads of 5, 5 and 2 bytes, nothing staged
    afterwards. *)
Example Read_five_five_two :
  match Read_calls paced5 0%nat [zeros 12; zeros 12; zeros 12] with
  | Return (chunks, c, _) =>
      chunks = [firstn 5 twelve; firstn 5 (skipn 5 twelve); skipn 10 twelve]
      /\ sc_rbuf c = [] /\ handed (sc_Conn c) = twelve
  | Panic => False
  end.
Proof. vm_compute. repeat split. Qed.

(** The datagram scenario: the 100-byte datagram of the throttled host is
    skipped and the first call returns the 50-byte one. *)
Example ReadFrom_skips_throttled_host :
  match packetConn_ReadFrom SplitHostPort_plain 2 guarded_packet 0%nat
          (zeros 200) with
  | Some (Return (n, addr, err, _, c, _)) =>
      n = 50 /\ addr = Some (udp_addr "10.0.0.2:5000") /\ err = None
      /\ inbox (pc_PacketConn c) = []
  | _ => False
  end.
Proof. vm_compute. repeat split. Qed.

Lemma serverConn_Read_no_loss_witness :
  exists chunks c' w',
    Read_calls wired5 0%nat (repeat (zeros 4) 12) = Return (chunks, c', w')
    /\ concat chunks = twelve
    /\ sc_rbuf c' = [] /\ wire (sc_Conn c') = [].
Proof.
  destruct (serverConn_Read_no_loss wire wired5 0%nat (repeat (zeros 4) 12))
    as (chunks & c' & w' & HR & _ & Hall).
  - exact wireConn_Read_in_bounds.
  - exact wireConn_delivers_stream.
  - intros l Hl. injection Hl as <-. apply capLimiter_within_request. lia.
  - intros Hnil. discriminate Hnil.
  - exists chunks, c', w'. split; [exact HR|].
    apply Hall.
    + exact wireConn_stream_progress.
    + intros l Hl. injection Hl as <-. apply capLimiter_makes_progress. lia.
    + repeat constructor; discriminate.
    + apply Nat.le_refl.
Defined.

(** C1 fails as stated: [capLimiter 0] keeps [0 <= granted <= requested],
    and however many [Read]s are made through it, no byte of the twelve
    on the wire is delivered. *)
Lemma serverConn_Read_no_loss_counterexample :
  ~ (forall (c : @serverConn nat wireConn) w l,
       sc_In c = Some l ->
       limiter.within_request l ->
       sc_rbuf c = [] ->
       exists bufs chunks c' w',
         Read_calls c w bufs = Return (chunks, c', w')
         /\ concat chunks = wire (sc_Conn c)).
Proof.
  intros Hclaim.
  destruct (Hclaim starved 0%nat (capLimiter 0) eq_refl
              (capLimiter_within_request 0 (Z.le_refl 0)) eq_refl)
    as (bufs & chunks & c' & w' & HR & Hcat).
  assert (forall (w : nat) n,
             0 <= n -> fst (limiter.Wait (capLimiter 0) w n) = 0) as Hzero.
  { intros w n Hn. simpl. lia. }
  assert (forall (c : wireConn) b n e b' c1,
             conn_Read c b = (n, Some e, b', c1) -> n = 0) as Herr.
  { intros c b n e b' c1 HRd.
    destruct (wireConn_Read_spec c b n (Some e) b' c1 HRd)
      as (_ & _ & _ & Hz & _).
    apply Hz. discriminate. }
  destruct (Read_calls_zero_grant (C := wireConn) (capLimiter 0) bufs Hzero
              wireConn_Read_in_bounds Herr starved 0%nat eq_refl)
    as (chunks0 & c0 & w0 & HR0 & Hnone).
  rewrite HR in HR0. injection HR0 as <- <- <-.
  rewrite Hnone in Hcat. discriminate Hcat.
Qed.

Lemma serverConn_Read_staged_first_witness :
  exists b' c',
    serverConn_Read staged_conn 0%nat (zeros 4) = Return (4, None, b', c', 1%nat)
    /\ sc_Conn c' = sc_Conn staged_conn
    /\ firstn 4 b' = firstn 4 (sc_rbuf staged_conn)
    /\ skipn 4 b' = skipn 4 (zeros 4)
    /\ sc_rbuf c' = skipn 4 (sc_rbuf staged_conn)
    /\ 0 <= 4 <= Z.min (len (zeros 4)) (len (sc_rbuf staged_conn)).
Proof.
  apply (serverConn_Read_staged_first staged_conn 0%nat (zeros 4)
           (capLimiter 5) 4 1%nat).
  - reflexivity.
  - apply capLimiter_within_request. lia.
  - discriminate.
  - reflexivity.
Defined.

Lemma serverConn_Read_error_passthrough_witness :
  exists c',
    serverConn_Read eof_conn 0%nat (zeros 8)
    = Return (3, Some io_EOF, firstn 3 twelve ++ zeros 5, c', 0%nat)
    /\ sc_Conn c' = snd (conn_Read (sc_Conn eof_conn) (zeros 8))
    /\ sc_rbuf c' = [].
Proof.
  apply (serverConn_Read_error_passthrough eof_conn 0%nat (zeros 8)
           (capLimiter 5)).
  - reflexivity.
  - reflexivity.
  - reflexivity.
Defined.

(** C5 fails as stated: [eof_conn] hands its three bytes over together
    with [io.EOF], and [Read] reports the three bytes with the error, not
    zero. *)
Lemma serverConn_Read_error_zero_counterexample :
  ~ (forall (c : @serverConn nat scriptConn) w b l nn e b' conn,
       sc_In c = Some l ->
       sc_rbuf c = [] ->
       conn_Read (sc_Conn c) b = (nn, Some e, b', conn) ->
       exists b'' c' w',
         serverConn_Read c w b = Return (0, Some e, b'', c', w')).
Proof.
  intros Hclaim.
  assert (conn_Read (sc_Conn eof_conn) (zeros 8)
          = (3, Some io_EOF, firstn 3 twelve ++ zeros 5,
             snd (conn_Read (sc_Conn eof_conn) (zeros 8)))) as HR
    by reflexivity.
  destruct (Hclaim eof_conn 0%nat (zeros 8) (capLimiter 5) 3 io_EOF _ _
              eq_refl eq_refl HR) as (b'' & c' & w' & Hrun).
  vm_compute in Hrun. discriminate Hrun.
Qed.

Lemma serverConn_Write_chunking_witness :
  exists n err c' w' chunks,
    serverConn_Write 12 paced5 0%nat twelve = Some (Return (n, err, c', w'))
    /\ (forall fuel r,
          serverConn_Write fuel paced5 0%nat twelve = Some r ->
          r = Return (n, err, c', w'))
    /\ written (sc_Conn c') = written (sc_Conn paced5) ++ chunks
    /\ paced (capLimiter 5) 0%nat twelve chunks
    /\ (err = None ->
        concat chunks = twelve /\ total_len chunks = len twelve
        /\ n = len twelve)
    /\ (forall e, err = Some e ->
        exists done last c1 nn rest,
          chunks = done ++ [last]
          /\ conn_Write c1 last = (nn, Some e, sc_Conn c')
          /\ n = total_len done + nn
          /\ twelve = concat done ++ last ++ rest).
Proof.
  apply (serverConn_Write_chunking written paced5 0%nat twelve (capLimiter 5)).
  - reflexivity.
  - apply capLimiter_within_request. lia.
  - apply capLimiter_makes_progress. lia.
  - exact scriptConn_Write_in_bounds.
  - exact scriptConn_records_writes.
Defined.

Lemma serverConn_Write_terminates_witness :
  exists n err c' w',
    serverConn_Write 12 paced5 0%nat twelve = Some (Return (n, err, c', w')).
Proof.
  apply (serverConn_Write_terminates paced5 0%nat twelve (capLimiter 5)).
  - reflexivity.
  - apply capLimiter_within_request. lia.
  - apply capLimiter_makes_progress. lia.
  - exact scriptConn_Write_in_bounds.
Defined.

(** Under a limiter that grants nothing the loop of [Write] goes round
    for ever: every iteration writes the empty slice and keeps [b]. *)
Lemma Write_loop_stalls fuel :
  forall (conn : scriptConn) (w : nat) n,
  0 <= budget conn ->
  Write_loop fuel (capLimiter 0) conn w [x01] n = None.
Proof.
  induction fuel as [|fuel IH]; intros conn w n Hroom; [reflexivity|].
  destruct (Write_loop_step fuel (capLimiter 0) conn w [x01] n 0 (S w))
    as [_ ->].
  - apply capLimiter_within_request. lia.
  - reflexivity.
  - reflexivity.
  - change (conn_Write conn (firstn (Z.to_nat 0) [x01]))
      with (scriptConn_Write conn []).
    unfold scriptConn_Write. change (len (@nil byte)) with 0.
    destruct (Z.leb_spec 0 (budget conn)); [|lia].
    change (slice [x01] 0 (len [x01])) with (Some [x01]).
    apply IH. simpl. lia.
Qed.

(** C9 fails as stated: [capLimiter 0] keeps [0 <= granted <= requested],
    and [Write] of one byte through it never returns. *)
Lemma serverConn_Write_stalls_counterexample :
  ~ (forall (c : @serverConn nat scriptConn) w b l,
       sc_Out c = Some l ->
       limiter.within_request l ->
       Write_in_bounds (C := scriptConn) ->
       exists fuel r, serverConn_Write fuel c w b = Some r).
Proof.
  intros Hclaim.
  destruct (Hclaim stalled 0%nat [x01] (capLimiter 0) eq_refl
              (capLimiter_within_request 0 (Z.le_refl 0))
              scriptConn_Write_in_bounds) as (fuel & r & Hrun).
  unfold serverConn_Write in Hrun.
  change (sc_Out stalled) with (Some (capLimiter 0)) in Hrun.
  cbv beta iota in Hrun.
  rewrite Write_loop_stalls in Hrun by (simpl; lia).
  discriminate Hrun.
Qed.

(** C3 fails as stated: through [capLimiter 0], which keeps
    [0 <= granted <= requested], [Write] of one byte never returns, and
    every write it issues is empty, so the writes never sum to the
    length of the buffer. *)
Lemma serverConn_Write_chunking_counterexample :
  ~ (forall (c : @serverConn nat scriptConn) w b l,
       sc_Out c = Some l ->
       limiter.within_request l ->
       Write_in_bounds (C := scriptConn) ->
       records_writes (C := scriptConn) written ->
       exists fuel n err c' w' chunks,
         serverConn_Write fuel c w b = Some (Return (n, err, c', w'))
         /\ written (sc_Conn c') = written (sc_Conn c) ++ chunks
         /\ (err = None ->
             concat chunks = b /\ total_len chunks = len b /\ n = len b)).
Proof.
  intros Hclaim.
  destruct (Hclaim stalled 0%nat [x01] (capLimiter 0) eq_refl
              (capLimiter_within_request 0 (Z.le_refl 0))
              scriptConn_Write_in_bounds scriptConn_records_writes)
    as (fuel & n & err & c' & w' & chunks & Hrun & _).
  unfold serverConn_Write in Hrun.
  change (sc_Out stalled) with (Some (capLimiter 0)) in Hrun.
  cbv beta iota in Hrun.
  rewrite Write_loop_stalls in Hrun by (simpl; lia).
  discriminate Hrun.
Qed.


Lemma WriteTo_silent_drop_witness :
  packetConn_WriteTo SplitHostPort_plain guarded_packet 0%nat (zeros 10)
    (Some (udp_addr "10.0.0.1:53"))
  = Return (len (zeros 10), None, guarded_packet, 1%nat)
  /\ udpConn_WriteMsgUDP SplitHostPort_plain guarded_udp 0%nat (zeros 10) []
       to_10_0_0_1
     = (len (zeros 10), 0, None, guarded_udp, 1%nat).
Proof.
  destruct (WriteTo_silent_drop (P := bareSock) (LW := nat)
              SplitHostPort_plain) as (Hpc & _ & Hudp).
  split.
  - apply Hpc. exists hostile_rl, (capLimiter 0), 0.
    repeat split; reflexivity.
  - apply (Hudp guarded_udp 0%nat (zeros 10) [] to_10_0_0_1 1%nat).
    exists hostile_rl, (capLimiter 0), 0.
    repeat split; reflexivity.
Defined.

Lemma WriteUDP_limit_before_probe_witness :
  udpConn_WriteToUDP SplitHostPort_plain guarded_udp 0%nat (zeros 10)
    to_10_0_0_1
  = (len (zeros 10), None, guarded_udp, 1%nat)
  /\ udpConn_WriteToUDP SplitHostPort_plain guarded_udp 0%nat (zeros 10)
       to_10_0_0_2
     = (0, Some errUnsupport, guarded_udp, 1%nat).
Proof.
  split.
  - destruct (WriteUDP_limit_before_probe (H := bareSock_PacketConn)
                SplitHostPort_plain guarded_udp
                0%nat (zeros 10) [] to_10_0_0_1 1%nat eq_refl) as [Hdrop _].
    apply Hdrop. exists hostile_rl, (capLimiter 0), 0.
    repeat split; reflexivity.
  - destruct (WriteUDP_limit_before_probe (H := bareSock_PacketConn)
                SplitHostPort_plain guarded_udp
                0%nat (zeros 10) [] to_10_0_0_2 1%nat eq_refl) as [_ Hpass].
    apply Hpass. right. right. exists hostile_rl, fullLimiter, 10.
    repeat split; try reflexivity; try discriminate.
Defined.

Lemma udpConn_probe_failure_witness :
  udpConn_SetReadBuffer guarded_udp 4096 = (Some errUnsupport, guarded_udp)
  /\ udpConn_Read guarded_udp (zeros 4)
     = (0, Some errUnsupport, zeros 4, guarded_udp)
  /\ udpConn_Write guarded_udp (zeros 4) = (0, Some errUnsupport, guarded_udp)
  /\ udpConn_ReadFromUDP SplitHostPort_plain 0 guarded_udp 0%nat (zeros 4)
     = Some (0, None, Some errUnsupport, zeros 4, guarded_udp, 0%nat)
  /\ udpConn_SyscallConn guarded_udp = (None, Some errUnsupport, guarded_udp)
  /\ udpConn_WriteToUDP SplitHostPort_plain guarded_udp 0%nat (zeros 10)
       to_10_0_0_2
     = (0, Some errUnsupport, guarded_udp, 1%nat)
  /\ udpConn_RemoteAddr guarded_udp = None
  /\ udpConn_SetDSCP guarded_udp 46 = (None, guarded_udp).
Proof.
  destruct (udpConn_probe_failure (H := bareSock_PacketConn)
              SplitHostPort_plain guarded_udp 0%nat)
    as (Hbuf & Hread & Hwrite & Hrudp & Hsys & Hwudp & Haddr & Hdscp).
  repeat match goal with |- _ /\ _ => split end.
  - apply Hbuf. reflexivity.
  - apply Hread. reflexivity.
  - apply Hwrite. reflexivity.
  - apply (Hrudp eq_refl 0%nat (zeros 4) []).
  - apply Hsys. reflexivity.
  - apply (Hwudp eq_refl (zeros 10) [] to_10_0_0_2 1%nat).
    right. right. exists hostile_rl, fullLimiter, 10.
    repeat split; try reflexivity; try discriminate.
  - apply Haddr. reflexivity.
  - apply Hdscp. reflexivity.
Defined.

(** C8 fails as stated: over a connection with none of the optional
    interfaces, [WriteToUDP] of a datagram the limiter cuts short returns
    [(len(b), nil)], and [RemoteAddr] returns a nil address; neither gives
    the unsupported-operation error. *)
Lemma udpConn_probe_counterexample :
  ~ (forall (c : @udpConn nat bareSock) w b addr,
       as_WriteUDP (P := bareSock) = None ->
       exists n c' w',
         udpConn_WriteToUDP SplitHostPort_plain c w b addr
         = (n, Some errUnsupport, c', w'))
  /\ as_RemoteAddr (P := bareSock) = None
  /\ udpConn_RemoteAddr guarded_udp = None.
Proof.
  split; [|split; reflexivity].
  intros Hclaim.
  destruct (Hclaim guarded_udp 0%nat (zeros 10) to_10_0_0_1 eq_refl)
    as (n & c' & w' & Hrun).
  vm_compute in Hrun. discriminate Hrun.
Qed.

Lemma fast_path_equivalence_witness :
  serverConn_Read unlimited 0%nat (zeros 12) =
  (let '(n, err, b', conn) := conn_Read (sc_Conn unlimited) (zeros 12) in
   Return (n, err, b', with_Conn unlimited conn, 0%nat))
  /\ packetConn_ReadFrom SplitHostPort_plain 1
       {| pc_PacketConn := sock0;
          pc_rlimiter :=
            Some (hostRateLimiter "10.0.0.9" (Some (capLimiter 0)) None) |}
       0%nat (zeros 200)
     = Some (Return (100, Some (udp_addr "10.0.0.1:5000"), None, zeros 200,
                     {| pc_PacketConn :=
                          {| inbox := [(zeros 50, udp_addr "10.0.0.2:5000")];
                             outbox := [] |};
                        pc_rlimiter :=
                          Some (hostRateLimiter "10.0.0.9"
                                  (Some (capLimiter 0)) None) |},
                     0%nat)).
Proof.
  destruct (fast_path_equivalence (LW := nat) (C := scriptConn)
              (P := bareSock) SplitHostPort_plain)
    as (_ & _ & _ & HRead & _ & HReadFrom & _).
  split.
  - apply HRead. reflexivity.
  - apply (HReadFrom 0%nat
             {| pc_PacketConn := sock0;
                pc_rlimiter :=
                  Some (hostRateLimiter "10.0.0.9" (Some (capLimiter 0)) None) |}
             0%nat (zeros 200) 100 (Some (udp_addr "10.0.0.1:5000")) None
             (zeros 200)).
    + reflexivity.
    + right. exists (udp_addr "10.0.0.1:5000"). split; reflexivity.
Defined.

(** * Further properties of the wrappers *)

(** ** serverConn.Read *)

Section StreamReadFurther.
Context {LW : Type} {C : Type} `{NetConn C}.

(** The shape of every [Read]: it returns, keeps the limiter lookup, stays
    within the caller's slice and never stages more than the larger of
    what was staged and the slice. *)
Lemma Read_shape (c : @serverConn LW C) (w : LW) (b : bytes) :
  Read_in_bounds ->
  (forall l, sc_In c = Some l -> limiter.within_request l) ->
  exists n err b' c' w',
    serverConn_Read c w b = Return (n, err, b', c', w')
    /\ sc_In c' = sc_In c
    /\ 0 <= n <= len b
    /\ len b' = len b
    /\ len (sc_rbuf c') <= Z.max (len (sc_rbuf c)) (len b).
Proof.
  intros Hb Hlim.
  pose proof (len_nonneg b) as Hblen.
  pose proof (len_nonneg (sc_rbuf c)) as Hrlen.
  destruct (sc_In c) as [l|] eqn:HIn.
  - specialize (Hlim l eq_refl).
    destruct (Z.eq_dec (len (sc_rbuf c)) 0) as [Hz|Hnz].
    + apply len_nil_iff in Hz.
      destruct (conn_Read (sc_Conn c) b) as [[[nn err] b'] conn] eqn:HR.
      destruct (Hb _ _ _ _ _ _ HR) as [Hnn Hlen].
      destruct err as [e|].
      * exists nn, (Some e), b', (with_Conn c conn), w.
        rewrite (Read_error c w b l nn e b' conn HIn Hz HR).
        simpl. rewrite Hz. repeat split; try assumption; try lia.
      * destruct (limiter.Wait l w nn) as [n w'] eqn:HW.
        destruct (Read_network c w b l nn b' conn n w' HIn Hlim Hb Hz HR HW)
          as [-> Hn].
        eexists n, None, b', _, w'. split; [reflexivity|].
        split; [exact HIn|]. split; [lia|]. split; [exact Hlen|].
        simpl. unfold len at 1.
        rewrite length_firstn, length_skipn. unfold len in *. lia.
    + assert (sc_rbuf c <> []) as Hne
        by (intros E; apply Hnz; now apply len_nil_iff).
      destruct (limiter.Wait l w (Z.min (len b) (len (sc_rbuf c))))
        as [g w'] eqn:HW.
      pose proof (Hlim w (Z.min (len b) (len (sc_rbuf c)))) as Hg.
      rewrite HW in Hg. simpl in Hg.
      assert (0 <= g <= Z.min (len b) (len (sc_rbuf c))) as Hg' by (apply Hg; lia).
      eexists g, None, _, _, w'.
      rewrite (Read_staged c w b l g w' HIn Hlim Hne HW).
      split; [reflexivity|]. split; [exact HIn|]. split; [lia|].
      simpl. split.
      * rewrite len_app, len_firstn, len_skipn by lia. lia.
      * rewrite len_skipn by lia. lia.
  - destruct (conn_Read (sc_Conn c) b) as [[[n err] b'] conn] eqn:HR.
    destruct (Hb _ _ _ _ _ _ HR) as [Hn Hlen].
    exists n, err, b', (with_Conn c conn), w.
    unfold serverConn_Read. rewrite HIn, HR.
    split; [reflexivity|]. split; [exact HIn|]. split; [exact Hn|].
    split; [exact Hlen|]. simpl. lia.
Qed.

(** X1. The network branch of [Read]: with an ingress limiter, nothing
    staged and a successful underlying read of [nn] bytes, the limiter is
    asked for exactly [nn]; [Read] returns [(granted, nil)], the caller's
    slice holds the bytes read, and the staging buffer receives exactly
    the undelivered bytes [b[granted:nn]]. *)
Theorem serverConn_Read_stages_suffix
    (c : @serverConn LW C) (w : LW) (b : bytes) l nn b' conn n w' :
  sc_In c = Some l ->
  limiter.within_request l ->
  Read_in_bounds ->
  sc_rbuf c = [] ->
  conn_Read (sc_Conn c) b = (nn, None, b', conn) ->
  limiter.Wait l w nn = (n, w') ->
  exists c',
    serverConn_Read c w b = Return (n, None, b', c', w')
    /\ sc_Conn c' = conn
    /\ 0 <= n <= nn
    /\ firstn (Z.to_nat n) b' ++ sc_rbuf c' = firstn (Z.to_nat nn) b'
    /\ len (sc_rbuf c') = nn - n.
Proof.
  intros HIn Hl Hb Hbuf HR HW.
  destruct (Read_network c w b l nn b' conn n w' HIn Hl Hb Hbuf HR HW)
    as [Hrun Hn].
  destruct (Hb _ _ _ _ _ _ HR) as [Hnn Hlen].
  eexists. split; [exact Hrun|]. simpl.
  split; [reflexivity|]. split; [exact Hn|]. split.
  - symmetry. apply firstn_split. exact Hn.
  - unfold len at 1. rewrite length_firstn, length_skipn.
    unfold len in *. lia.
Qed.

(** X2. [serverConn.Read] keeps the contract of [net.Conn] it is given:
    over a connection whose reads stay within the slice, and with
    limiters within their contract, every [Read] returns with
    [0 <= n <= len(b)] and leaves the length of [b] alone. *)
Theorem serverConn_Read_within_slice
    (c : @serverConn LW C) (w : LW) (b : bytes) :
  Read_in_bounds ->
  (forall l, sc_In c = Some l -> limiter.within_request l) ->
  exists n err b' c' w',
    serverConn_Read c w b = Return (n, err, b', c', w')
    /\ 0 <= n <= len b /\ len b' = len b.
Proof.
  intros Hb Hlim.
  destruct (Read_shape c w b Hb Hlim)
    as (n & err & b' & c' & w' & HR & _ & Hn & Hlen & _).
  exists n, err, b', c', w'. auto.
Qed.

(** X3. The staging buffer is bounded by the caller's slices: if all the
    slices of a run of [Read]s hold at most [m] bytes, and at most [m]
    bytes are staged at the start, at most [m] bytes are staged at the
    end. *)
Theorem serverConn_staging_bounded (m : Z) (bufs : list bytes) :
  Read_in_bounds ->
  forall (c : @serverConn LW C) (w : LW),
  (forall l, sc_In c = Some l -> limiter.within_request l) ->
  Forall (fun b => len b <= m) bufs ->
  len (sc_rbuf c) <= m ->
  exists chunks c' w',
    Read_calls c w bufs = Return (chunks, c', w')
    /\ len (sc_rbuf c') <= m.
Proof.
  intros Hb.
  induction bufs as [|b bufs IH]; intros c w Hlim Hall Hstart.
  - exists [], c, w. auto.
  - destruct (Read_shape c w b Hb Hlim)
      as (n & err & b' & c1 & w1 & HR & HIn & _ & _ & Hstaged).
    assert (len b <= m) as Hbm by (inversion Hall; assumption).
    destruct (IH c1 w1) as (chunks & c2 & w2 & HRs & Hend).
    + intros l Hl. apply Hlim. now rewrite <- HIn.
    + inversion Hall; assumption.
    + lia.
    + exists (firstn (Z.to_nat n) b' :: chunks), c2, w2.
      simpl. rewrite HR, HRs. auto.
Qed.
End StreamReadFurther.

Lemma serverConn_Read_stages_suffix_witness :
  exists c',
    serverConn_Read paced5 0%nat (zeros 12)
    = Return (5, None, twelve, c', 1%nat)
    /\ sc_Conn c' = snd (conn_Read (sc_Conn paced5) (zeros 12))
    /\ 0 <= 5 <= 12
    /\ firstn (Z.to_nat 5) twelve ++ sc_rbuf c' = firstn (Z.to_nat 12) twelve
    /\ len (sc_rbuf c') = 12 - 5.
Proof.
  apply (serverConn_Read_stages_suffix paced5 0%nat (zeros 12) (capLimiter 5)).
  - reflexivity.
  - apply capLimiter_within_request. lia.
  - exact scriptConn_Read_in_bounds.
  - reflexivity.
  - reflexivity.
  - reflexivity.
Defined.

Lemma serverConn_Read_within_slice_witness :
  exists n err b' c' w',
    serverConn_Read staged_conn 0%nat (zeros 4) = Return (n, err, b', c', w')
    /\ 0 <= n <= len (zeros 4) /\ len b' = len (zeros 4).
Proof.
  apply (serverConn_Read_within_slice staged_conn 0%nat (zeros 4)).
  - exact scriptConn_Read_in_bounds.
  - intros l Hl. injection Hl as <-. apply capLimiter_within_request. lia.
Defined.

Lemma serverConn_staging_bounded_witness :
  exists chunks c' w',
    Read_calls paced5 0%nat [zeros 12; zeros 2; zeros 3] = Return (chunks, c', w')
    /\ len (sc_rbuf c') <= 12.
Proof.
  apply (serverConn_staging_bounded 12 [zeros 12; zeros 2; zeros 3]).
  - exact scriptConn_Read_in_bounds.
  - intros l Hl. injection Hl as <-. apply capLimiter_within_request. lia.
  - repeat constructor; discriminate.
  - discriminate.
Defined.

(** ** serverConn.Write *)

Section StreamWriteFurther.
Context {LW : Type} {C : Type} `{NetConn C}.

(** A finished run of the loop has passed a prefix of [b] on, counted it,
    and reports no error only for the whole of [b]: the loop resumes
    after the last byte written, whatever the slice it had offered. *)
Lemma Write_loop_prefix (accepted : C -> bytes) (l : limiter.Limiter LW) :
  limiter.within_request l ->
  Write_count_in_bounds ->
  records_accepted accepted ->
  forall fuel (conn : C) w b n r,
  Write_loop fuel l conn w b n = Some r ->
  exists m err conn' w',
    r = Return (n + m, err, conn', w')
    /\ 0 <= m <= len b
    /\ accepted conn' = accepted conn ++ firstn (Z.to_nat m) b
    /\ (err = None -> m = len b).
Proof.
  intros Hl Hb Hrec.
  induction fuel as [|fuel IH]; intros conn w b n r Hrun;
    destruct (Z.ltb_spec 0 (len b)) as [Hpos|Hz];
    try (assert (len b = 0) as E by (pose proof (len_nonneg b); lia);
         rewrite Write_loop_done in Hrun by exact E;
         injection Hrun as <-;
         exists 0, None, conn, w; rewrite Z.add_0_r; simpl;
         rewrite app_nil_r; repeat split; try lia; reflexivity).
  - rewrite Write_loop_spent in Hrun by exact Hpos. discriminate.
  - destruct (limiter.Wait l w (len b)) as [g w1] eqn:HW.
    destruct (Write_loop_step fuel l conn w b n g w1 Hl Hpos HW) as [Hg Hstep].
    rewrite Hstep in Hrun. clear Hstep.
    destruct (conn_Write conn (firstn (Z.to_nat g) b)) as [[nn err] conn1] eqn:HWr.
    pose proof (Hb _ _ _ _ _ HWr) as Hnn.
    pose proof (Hrec _ _ _ _ _ HWr) as Hlog.
    rewrite len_firstn in Hnn by exact Hg.
    rewrite firstn_firstn in Hlog.
    replace (Nat.min (Z.to_nat nn) (Z.to_nat g)) with (Z.to_nat nn) in Hlog
      by lia.
    destruct err as [e|].
    + injection Hrun as <-.
      exists nn, (Some e), conn1, w1.
      repeat split; try lia; try assumption. discriminate.
    + rewrite slice_suffix in Hrun by lia.
      destruct (IH _ _ _ _ _ Hrun) as (m & err & conn' & w' & -> & Hm & Hlog' & Hok).
      rewrite len_skipn in Hm, Hok by lia.
      exists (nn + m), err, conn', w'.
      split; [f_equal; f_equal; f_equal; f_equal; lia|].
      split; [lia|]. split.
      * rewrite Hlog', Hlog, <- app_assoc. f_equal.
        rewrite (firstn_split b nn (nn + m)) by lia.
        f_equal. f_equal. lia.
      * intros E. specialize (Hok E). lia.
Qed.

(** Over a connection that makes progress the loop ends by returning,
    within [len(b)] iterations. *)
Lemma Write_loop_returns_short (l : limiter.Limiter LW) :
  limiter.within_request l ->
  limiter.makes_progress l ->
  Write_count_in_bounds ->
  Write_makes_progress ->
  forall fuel (conn : C) w b n,
  (List.length b <= fuel)%nat ->
  exists r, Write_loop fuel l conn w b n = Some (Return r).
Proof.
  intros Hl Hp Hb Hprog.
  induction fuel as [|fuel IH]; intros conn w b n Hfuel.
  - destruct b; [|simpl in Hfuel; lia].
    rewrite Write_loop_done by reflexivity. eauto.
  - destruct (Z.ltb_spec 0 (len b)) as [Hpos|Hz].
    2:{ rewrite Write_loop_done by (pose proof (len_nonneg b); lia). eauto. }
    destruct (limiter.Wait l w (len b)) as [g w1] eqn:HW.
    destruct (Write_loop_step fuel l conn w b n g w1 Hl Hpos HW) as [Hg ->].
    pose proof (Hp w (len b) Hpos) as Hg1. rewrite HW in Hg1. simpl in Hg1.
    destruct (conn_Write conn (firstn (Z.to_nat g) b)) as [[nn err] conn1] eqn:HWr.
    pose proof (Hb _ _ _ _ _ HWr) as Hnn.
    rewrite len_firstn in Hnn by exact Hg.
    destruct err as [e|]; [eauto|].
    pose proof (Hprog _ _ _ _ HWr) as Hnn1.
    rewrite len_firstn in Hnn1 by exact Hg. specialize (Hnn1 Hg1).
    rewrite slice_suffix by lia.
    apply IH. rewrite length_skipn. unfold len in *. lia.
Qed.

(** X4. [serverConn.Write] with an egress limiter keeps the contract of
    [io.Writer] even over a connection that writes short without an
    error: whenever it returns, the underlying connection has taken
    exactly the first [n] bytes of [b], [0 <= n <= len(b)], and a nil
    error means [n = len(b)].  It returns within [len(b)] iterations when
    limiter and connection make progress. *)
Theorem serverConn_Write_resumes_short_writes (accepted : C -> bytes)
    (c : @serverConn LW C) (w : LW) (b : bytes) l :
  sc_Out c = Some l ->
  limiter.within_request l ->
  Write_count_in_bounds ->
  records_accepted accepted ->
  (forall fuel r,
     serverConn_Write fuel c w b = Some r ->
     exists n err c' w',
       r = Return (n, err, c', w')
       /\ 0 <= n <= len b
       /\ accepted (sc_Conn c') = accepted (sc_Conn c) ++ firstn (Z.to_nat n) b
       /\ (err = None -> n = len b))
  /\ (limiter.makes_progress l -> Write_makes_progress ->
      exists r, serverConn_Write (List.length b) c w b = Some (Return r)).
Proof.
  intros HOut Hl Hb Hrec. split.
  - intros fuel r Hrun. unfold serverConn_Write in Hrun. rewrite HOut in Hrun.
    destruct (Write_loop fuel l (sc_Conn c) w b 0) as [r0|] eqn:Hloop;
      [|discriminate].
    destruct (Write_loop_prefix accepted l Hl Hb Hrec _ _ _ _ _ _ Hloop)
      as (m & err & conn' & w' & -> & Hm & Hlog & Hok).
    injection Hrun as <-.
    exists m, err, (with_Conn c conn'), w'. simpl. auto.
  - intros Hp Hprog. unfold serverConn_Write. rewrite HOut.
    destruct (Write_loop_returns_short l Hl Hp Hb Hprog (List.length b)
                (sc_Conn c) w b 0 (Nat.le_refl _)) as ([[[m err] conn'] w'] & ->).
    eauto.
Qed.

(** X5. An empty [Write] through an egress limiter returns [(0, nil)] at
    once, for any fuel: the limiter is not asked and the underlying
    connection is not called (without a limiter the empty slice is
    passed on to the connection). *)
Theorem serverConn_Write_empty (c : @serverConn LW C) (w : LW) l fuel :
  sc_Out c = Some l ->
  serverConn_Write fuel c w [] = Some (Return (0, None, c, w)).
Proof.
  intros HOut. unfold serverConn_Write. rewrite HOut.
  rewrite Write_loop_done by reflexivity.
  destruct c. reflexivity.
Qed.
End StreamWriteFurther.

Lemma shortConn_Write_count_in_bounds : Write_count_in_bounds (C := shortConn).
Proof.
  intros c p nn err c' HW.
  change (shortConn_Write c p = (nn, err, c')) in HW.
  unfold shortConn_Write in HW. pose proof (len_nonneg p).
  destruct (room c); injection HW as <- <- <-; lia.
Qed.

Lemma shortConn_records_accepted : records_accepted (C := shortConn) taken.
Proof.
  intros c p nn err c' HW.
  change (shortConn_Write c p = (nn, err, c')) in HW.
  unfold shortConn_Write in HW.
  destruct (room c); injection HW as <- <- <-; simpl.
  - now rewrite app_nil_r.
  - reflexivity.
Qed.

(** The peer of [slow_writer] takes 3 of the 5 bytes first offered and
    reports no error; [Write] still passes on all twelve bytes, in
    order. *)
Example Write_after_short_writes :
  match serverConn_Write 12 slow_writer 0%nat twelve with
  | Some (Return (n, err, c, _)) =>
      n = 12 /\ err = None /\ taken (sc_Conn c) = twelve
  | _ => False
  end.
Proof. vm_compute. repeat split. Qed.

Lemma serverConn_Write_resumes_short_writes_witness :
  (forall fuel r,
     serverConn_Write fuel slow_writer 0%nat twelve = Some r ->
     exists n err c' w',
       r = Return (n, err, c', w')
       /\ 0 <= n <= len twelve
       /\ taken (sc_Conn c')
          = taken (sc_Conn slow_writer) ++ firstn (Z.to_nat n) twelve
       /\ (err = None -> n = len twelve))
  /\ (limiter.makes_progress (capLimiter 5) ->
      Write_makes_progress (C := shortConn) ->
      exists r, serverConn_Write 12 slow_writer 0%nat twelve = Some (Return r)).
Proof.
  apply (serverConn_Write_resumes_short_writes taken slow_writer 0%nat twelve
           (capLimiter 5)).
  - reflexivity.
  - apply capLimiter_within_request. lia.
  - exact shortConn_Write_count_in_bounds.
  - exact shortConn_records_accepted.
Defined.

Lemma serverConn_Write_empty_witness :
  serverConn_Write 0 stalled 0%nat [] = Some (Return (0, None, stalled, 0%nat)).
Proof.
  apply (serverConn_Write_empty stalled 0%nat (capLimiter 0) 0%nat).
  reflexivity.
Defined.

(** ** The datagram wrappers, further *)

Section DatagramFurther.
Context {LW : Type} {P : Type} `{PacketConn P}.
Variable SplitHostPort : string -> string * string * option error.

(** The egress check has two outcomes and no third. *)
Lemma egress_dichotomy (rlimiter : option (limiter.RateLimiter LW))
    (host : string) (size : Z) (w : LW) :
  exists w',
    dropped_egress rlimiter host size w w'
    \/ passes_egress rlimiter host size w w'.
Proof.
  destruct rlimiter as [rl|].
  - destruct (limiter.Out rl host) as [l|] eqn:HOut.
    + destruct (limiter.Wait l w size) as [g w'] eqn:HW.
      exists w'. destruct (Z.lt_ge_cases g size).
      * left. exists rl, l, g. auto.
      * right. right. right. exists rl, l, g. auto.
    + exists w. right. right. left. exists rl. auto.
  - exists w. right. left. auto.
Qed.

(** X6. [WriteTo] is all or nothing: for every call with a destination
    address, either the egress check drops the datagram, nothing reaches
    the underlying connection and [(len(p), nil)] is returned, or the
    datagram passes the check, the underlying [WriteTo] is called once
    with the whole of [p] and its count and error are returned as they
    are.  So it is for [packetConn] and for [udpConn]. *)
Theorem WriteTo_all_or_nothing (sent : P -> list (bytes * option Addr)) :
  records_sends sent ->
  (forall (c : @packetConn LW P) w p a,
     exists n err c' w',
       packetConn_WriteTo SplitHostPort c w p (Some a)
       = Return (n, err, c', w')
       /\ pc_rlimiter c' = pc_rlimiter c
       /\ ((dropped_egress (pc_rlimiter c)
              (hostKey SplitHostPort (addr_String a)) (len p) w w'
            /\ sent (pc_PacketConn c') = sent (pc_PacketConn c)
            /\ n = len p /\ err = None)
           \/ (passes_egress (pc_rlimiter c)
                 (hostKey SplitHostPort (addr_String a)) (len p) w w'
               /\ sent (pc_PacketConn c')
                  = sent (pc_PacketConn c) ++ [(p, Some a)]
               /\ pconn_WriteTo (pc_PacketConn c) p (Some a)
                  = (n, err, pc_PacketConn c'))))
  /\ (forall (c : @udpConn LW P) w p a,
        exists n err c' w',
          udpConn_WriteTo SplitHostPort c w p (Some a)
          = Return (n, err, c', w')
          /\ uc_rlimiter c' = uc_rlimiter c
          /\ ((dropped_egress (uc_rlimiter c)
                 (hostKey SplitHostPort (addr_String a)) (len p) w w'
               /\ sent (uc_PacketConn c') = sent (uc_PacketConn c)
               /\ n = len p /\ err = None)
              \/ (passes_egress (uc_rlimiter c)
                    (hostKey SplitHostPort (addr_String a)) (len p) w w'
                  /\ sent (uc_PacketConn c')
                     = sent (uc_PacketConn c) ++ [(p, Some a)]
                  /\ pconn_WriteTo (uc_PacketConn c) p (Some a)
                     = (n, err, uc_PacketConn c')))).
Proof.
  intros Hrec. split.
  - intros c w p a.
    destruct (egress_dichotomy (pc_rlimiter c)
                (hostKey SplitHostPort (addr_String a)) (len p) w)
      as [w' [Hd|Hp]].
    + exists (len p), None, c, w'.
      rewrite (packetConn_WriteTo_dropped SplitHostPort c w p a w' Hd).
      split; [reflexivity|]. split; [reflexivity|]. left. auto.
    + destruct (pconn_WriteTo (pc_PacketConn c) p (Some a))
        as [[n err] pc] eqn:HW.
      exists n, err, {| pc_PacketConn := pc; pc_rlimiter := pc_rlimiter c |}, w'.
      rewrite (packetConn_WriteTo_passes SplitHostPort c w p a w' Hp), HW.
      split; [reflexivity|]. split; [reflexivity|]. right.
      split; [exact Hp|]. split; [exact (Hrec _ _ _ _ _ _ HW)|reflexivity].
  - intros c w p a.
    destruct (egress_dichotomy (uc_rlimiter c)
                (hostKey SplitHostPort (addr_String a)) (len p) w)
      as [w' [Hd|Hp]].
    + exists (len p), None, c, w'.
      rewrite (udpConn_WriteTo_dropped SplitHostPort c w p a w' Hd).
      split; [reflexivity|]. split; [reflexivity|]. left. auto.
    + destruct (pconn_WriteTo (uc_PacketConn c) p (Some a))
        as [[n err] pc] eqn:HW.
      exists n, err, (uc_with c pc), w'.
      rewrite (udpConn_WriteTo_passes SplitHostPort c w p a w' Hp), HW.
      split; [reflexivity|]. split; [reflexivity|]. right.
      split; [exact Hp|]. split; [exact (Hrec _ _ _ _ _ _ HW)|reflexivity].
Qed.

(** X7. The UDP-typed writes over a connection that has [udp.WriteUDP]:
    every [WriteToUDP] and [WriteMsgUDP] either is dropped by the egress
    check, returning [(len(b), nil)] (and [oobn = 0]) with the connection
    untouched, or passes it and returns what the underlying method
    returns for the whole of [b], [oob] and [addr]. *)
Theorem WriteUDP_all_or_nothing (nc : WriteUDP P)
    (c : @udpConn LW P) (w : LW) (b oob : bytes) (addr : option UDPAddr) :
  as_WriteUDP (P := P) = Some nc ->
  exists w',
    (dropped_egress (uc_rlimiter c)
       (hostKey SplitHostPort (UDPAddr_String addr)) (len b) w w'
     /\ udpConn_WriteToUDP SplitHostPort c w b addr = (len b, None, c, w')
     /\ udpConn_WriteMsgUDP SplitHostPort c w b oob addr
        = (len b, 0, None, c, w'))
    \/ (passes_egress (uc_rlimiter c)
          (hostKey SplitHostPort (UDPAddr_String addr)) (len b) w w'
        /\ udpConn_WriteToUDP SplitHostPort c w b addr
           = (let '(n, err, pc) := WriteToUDP nc (uc_PacketConn c) b addr in
              (n, err, uc_with c pc, w'))
        /\ udpConn_WriteMsgUDP SplitHostPort c w b oob addr
           = (let '(n, oobn, err, pc) :=
                WriteMsgUDP nc (uc_PacketConn c) b oob addr in
              (n, oobn, err, uc_with c pc, w'))).
Proof.
  intros Hcap.
  destruct (egress_dichotomy (uc_rlimiter c)
              (hostKey SplitHostPort (UDPAddr_String addr)) (len b) w)
    as [w' [Hd|Hp]]; exists w'.
  - left. split; [exact Hd|]. split.
    + now apply udpConn_WriteToUDP_dropped.
    + now apply udpConn_WriteMsgUDP_dropped.
  - right. split; [exact Hp|]. split.
    + rewrite (udpConn_WriteToUDP_passes SplitHostPort c w b addr w' Hp).
      now rewrite Hcap.
    + rewrite (udpConn_WriteMsgUDP_passes SplitHostPort c w b oob addr w' Hp).
      now rewrite Hcap.
Qed.

(** X8. A nil address: [ReadFrom] of either wrapper panics when the
    underlying read returns a nil address with a nil error, and does so
    before it looks at the rate limiter, so even without one; [WriteTo]
    with a nil address panics when a rate limiter is set, and passes the
    call on when there is none. *)
Theorem nil_address_panics :
  (forall fuel (c : @packetConn LW P) w p n p1 pc1,
     pconn_ReadFrom (pc_PacketConn c) p = (n, None, None, p1, pc1) ->
     packetConn_ReadFrom SplitHostPort (S fuel) c w p = Some Panic)
  /\ (forall fuel (c : @udpConn LW P) w p n p1 pc1,
        pconn_ReadFrom (uc_PacketConn c) p = (n, None, None, p1, pc1) ->
        udpConn_ReadFrom SplitHostPort (S fuel) c w p = Some Panic)
  /\ (forall (c : @packetConn LW P) w p rl,
        pc_rlimiter c = Some rl ->
        packetConn_WriteTo SplitHostPort c w p None = Panic)
  /\ (forall (c : @udpConn LW P) w p rl,
        uc_rlimiter c = Some rl ->
        udpConn_WriteTo SplitHostPort c w p None = Panic)
  /\ (forall (c : @packetConn LW P) w p,
        pc_rlimiter c = None ->
        packetConn_WriteTo SplitHostPort c w p None =
        let '(n, err, pc) := pconn_WriteTo (pc_PacketConn c) p None in
        Return (n, err, {| pc_PacketConn := pc; pc_rlimiter := None |}, w))
  /\ (forall (c : @udpConn LW P) w p,
        uc_rlimiter c = None ->
        udpConn_WriteTo SplitHostPort c w p None =
        let '(n, err, pc) := pconn_WriteTo (uc_PacketConn c) p None in
        Return (n, err, {| uc_PacketConn := pc; uc_rlimiter := None |}, w)).
Proof.
  repeat match goal with |- _ /\ _ => split end.
  - intros fuel c w p n p1 pc1 HR. cbn [packetConn_ReadFrom]. now rewrite HR.
  - intros fuel c w p n p1 pc1 HR. cbn [udpConn_ReadFrom]. now rewrite HR.
  - intros c w p rl Hrl. unfold packetConn_WriteTo. now rewrite Hrl.
  - intros c w p rl Hrl. unfold udpConn_WriteTo. now rewrite Hrl.
  - intros c w p Hrl. unfold packetConn_WriteTo. now rewrite Hrl.
  - intros c w p Hrl. unfold udpConn_WriteTo, uc_with. now rewrite Hrl.
Qed.
End DatagramFurther.

(** ** The UDP-typed reads *)

Section UDPReads.
Context {LW : Type} {P : Type} `{PacketConn P}.
Variable SplitHostPort : string -> string * string * option error.
Variable nc : ReadUDP P.

Lemma ReadFromUDP_loop_discards fuel (c : @udpConn LW P) w b
    n addr b1 pc1 l granted w1 :
  ReadFromUDP nc (uc_PacketConn c) b = (n, addr, None, b1, pc1) ->
  rl_In (uc_rlimiter c) (hostKey SplitHostPort (UDPAddr_String addr)) = Some l ->
  limiter.Wait l w n = (granted, w1) ->
  granted < n ->
  ReadFromUDP_loop SplitHostPort (S fuel) nc c w b =
  ReadFromUDP_loop SplitHostPort fuel nc (uc_with c pc1) w1 b1.
Proof.
  intros HR HIn HW Hlt. unfold hostKey in HIn.
  cbn [ReadFromUDP_loop]. rewrite HR. cbn [uc_rlimiter uc_with].
  destruct (SplitHostPort (UDPAddr_String addr)) as [[host port] e].
  rewrite HIn, HW.
  destruct (Z.ltb_spec granted n); [reflexivity|lia].
Qed.

Lemma ReadFromUDP_loop_admitted fuel :
  forall (c : @udpConn LW P) w b n addr b' c' w',
  ReadFromUDP_loop SplitHostPort fuel nc c w b
  = Some (n, addr, None, b', c', w') ->
  uc_rlimiter c' = uc_rlimiter c /\
  exists pc0 w0 b0,
    skippedUDP SplitHostPort nc (uc_rlimiter c) (uc_PacketConn c) w b pc0 w0 b0
    /\ ReadFromUDP nc pc0 b0 = (n, addr, None, b', uc_PacketConn c')
    /\ admitted (uc_rlimiter c)
         (hostKey SplitHostPort (UDPAddr_String addr)) n w0 w'.
Proof.
  induction fuel as [|fuel IH]; intros c w b n addr b' c' w' Hrun;
    [discriminate|].
  cbn [ReadFromUDP_loop] in Hrun.
  destruct (ReadFromUDP nc (uc_PacketConn c) b)
    as [[[[n1 addr1] err1] b1] pc1] eqn:HR.
  destruct err1 as [e|]; [discriminate|].
  cbn [uc_rlimiter uc_with] in Hrun.
  destruct (SplitHostPort (UDPAddr_String addr1)) as [[host port] e] eqn:Hsplit.
  assert (hostKey SplitHostPort (UDPAddr_String addr1) = host) as Hkey
    by (unfold hostKey; now rewrite Hsplit).
  destruct (rl_In (uc_rlimiter c) host) as [l|] eqn:HIn.
  - destruct (limiter.Wait l w n1) as [g w1] eqn:HW.
    destruct (Z.ltb_spec g n1) as [Hlt|Hge].
    + apply IH in Hrun. cbn [uc_rlimiter uc_PacketConn uc_with] in Hrun.
      destruct Hrun as (Hrl & pc0 & w0 & b0 & Hskip & Hlast).
      split; [exact Hrl|]. exists pc0, w0, b0.
      split; [|exact Hlast].
      eapply skippedUDP_next; try eassumption. now rewrite Hkey.
    + injection Hrun as <- <- <- <- <-. split; [reflexivity|].
      exists (uc_PacketConn c), w, b. cbn.
      split; [constructor|]. split; [exact HR|].
      right. exists l, g. rewrite Hkey. auto.
  - injection Hrun as <- <- <- <- <-. split; [reflexivity|].
    exists (uc_PacketConn c), w, b. cbn.
    split; [constructor|]. split; [exact HR|].
    left. rewrite Hkey. auto.
Qed.

Lemma ReadFromUDP_loop_returns
    (rlimiter : option (limiter.RateLimiter LW)) (pc : P) w b pc0 w0 b0 :
  skippedUDP SplitHostPort nc rlimiter pc w b pc0 w0 b0 ->
  forall n addr b' pc' w',
  ReadFromUDP nc pc0 b0 = (n, addr, None, b', pc') ->
  admitted rlimiter (hostKey SplitHostPort (UDPAddr_String addr)) n w0 w' ->
  exists fuel,
    ReadFromUDP_loop SplitHostPort fuel nc
      {| uc_PacketConn := pc; uc_rlimiter := rlimiter |} w b
    = Some (n, addr, None, b',
            {| uc_PacketConn := pc'; uc_rlimiter := rlimiter |}, w').
Proof.
  induction 1 as [pc w b|pc w b n1 a1 b1 pc1 l g w1 pc0 w0 b0 HR HIn HW Hlt _ IH];
    intros n addr b' pc' w' Hlast Hadm.
  - exists 1%nat. cbn [ReadFromUDP_loop uc_PacketConn]. rewrite Hlast.
    cbn [uc_rlimiter uc_with]. unfold hostKey in Hadm.
    destruct (SplitHostPort (UDPAddr_String addr)) as [[host port] e].
    destruct Hadm as [[HIn ->]|(l & g & HIn & HW & Hge)]; rewrite HIn.
    + reflexivity.
    + rewrite HW. destruct (Z.ltb_spec g n); [lia|reflexivity].
  - destruct (IH _ _ _ _ _ Hlast Hadm) as [fuel Hrun].
    exists (S fuel).
    rewrite (ReadFromUDP_loop_discards fuel
               {| uc_PacketConn := pc; uc_rlimiter := rlimiter |}
               w b n1 a1 b1 pc1 l g w1 HR HIn HW Hlt).
    exact Hrun.
Qed.

(** X9. [ReadFromUDP] over a connection that has [udp.ReadUDP] keeps the
    whole-datagram policy of [ReadFrom]: an error of the underlying read
    is returned at once, the limiter unasked; a datagram granted in part
    is skipped; a datagram returned comes after a run of skipped ones,
    with its full size, from a host without limiter or with a full
    grant; and the first such datagram is returned. *)
Theorem ReadFromUDP_datagram_atomicity :
  as_ReadUDP (P := P) = Some nc ->
  (forall fuel (c : @udpConn LW P) w b n addr e b1 pc1,
     ReadFromUDP nc (uc_PacketConn c) b = (n, addr, Some e, b1, pc1) ->
     udpConn_ReadFromUDP SplitHostPort (S fuel) c w b
     = Some (n, addr, Some e, b1, uc_with c pc1, w))
  /\ (forall fuel (c : @udpConn LW P) w b n addr b1 pc1 l granted w1,
        ReadFromUDP nc (uc_PacketConn c) b = (n, addr, None, b1, pc1) ->
        rl_In (uc_rlimiter c) (hostKey SplitHostPort (UDPAddr_String addr))
        = Some l ->
        limiter.Wait l w n = (granted, w1) ->
        granted < n ->
        udpConn_ReadFromUDP SplitHostPort (S fuel) c w b =
        udpConn_ReadFromUDP SplitHostPort fuel (uc_with c pc1) w1 b1)
  /\ (forall fuel (c : @udpConn LW P) w b n addr b' c' w',
        udpConn_ReadFromUDP SplitHostPort fuel c w b
        = Some (n, addr, None, b', c', w') ->
        exists pc0 w0 b0,
          skippedUDP SplitHostPort nc (uc_rlimiter c) (uc_PacketConn c) w b
            pc0 w0 b0
          /\ ReadFromUDP nc pc0 b0 = (n, addr, None, b', uc_PacketConn c')
          /\ admitted (uc_rlimiter c)
               (hostKey SplitHostPort (UDPAddr_String addr)) n w0 w')
  /\ (forall (c : @udpConn LW P) w b pc0 w0 b0 n addr b' pc' w',
        skippedUDP SplitHostPort nc (uc_rlimiter c) (uc_PacketConn c) w b
          pc0 w0 b0 ->
        ReadFromUDP nc pc0 b0 = (n, addr, None, b', pc') ->
        admitted (uc_rlimiter c)
          (hostKey SplitHostPort (UDPAddr_String addr)) n w0 w' ->
        exists fuel,
          udpConn_ReadFromUDP SplitHostPort fuel c w b
          = Some (n, addr, None, b', uc_with c pc', w')).
Proof.
  intros Hcap. unfold udpConn_ReadFromUDP. rewrite Hcap.
  repeat match goal with |- _ /\ _ => split end.
  - intros fuel c w b n addr e b1 pc1 HR.
    cbn [ReadFromUDP_loop]. now rewrite HR.
  - intros. eapply ReadFromUDP_loop_discards; eassumption.
  - intros fuel c w b n addr b' c' w' Hrun.
    apply ReadFromUDP_loop_admitted in Hrun. apply Hrun.
  - intros [pc rl] w b pc0 w0 b0 n addr b' pc' w' Hskip Hlast Hadm.
    eapply ReadFromUDP_loop_returns; eassumption.
Qed.

Lemma ReadMsgUDP_loop_discards fuel (c : @udpConn LW P) w b oob
    n oobn flags addr b1 oob1 pc1 l granted w1 :
  ReadMsgUDP nc (uc_PacketConn c) b oob
  = (n, oobn, flags, addr, None, b1, oob1, pc1) ->
  rl_In (uc_rlimiter c) (hostKey SplitHostPort (UDPAddr_String addr)) = Some l ->
  limiter.Wait l w n = (granted, w1) ->
  granted < n ->
  ReadMsgUDP_loop SplitHostPort (S fuel) nc c w b oob =
  ReadMsgUDP_loop SplitHostPort fuel nc (uc_with c pc1) w1 b1 oob1.
Proof.
  intros HR HIn HW Hlt. unfold hostKey in HIn.
  cbn [ReadMsgUDP_loop]. rewrite HR. cbn [uc_rlimiter uc_with].
  destruct (SplitHostPort (UDPAddr_String addr)) as [[host port] e].
  rewrite HIn, HW.
  destruct (Z.ltb_spec granted n); [reflexivity|lia].
Qed.

Lemma ReadMsgUDP_loop_admitted fuel :
  forall (c : @udpConn LW P) w b oob n oobn flags addr b' oob' c' w',
  ReadMsgUDP_loop SplitHostPort fuel nc c w b oob
  = Some (n, oobn, flags, addr, None, b', oob', c', w') ->
  uc_rlimiter c' = uc_rlimiter c /\
  exists pc0 w0 b0 oob0,
    skippedMsg SplitHostPort nc (uc_rlimiter c) (uc_PacketConn c) w b oob
      pc0 w0 b0 oob0
    /\ ReadMsgUDP nc pc0 b0 oob0
       = (n, oobn, flags, addr, None, b', oob', uc_PacketConn c')
    /\ admitted (uc_rlimiter c)
         (hostKey SplitHostPort (UDPAddr_String addr)) n w0 w'.
Proof.
  induction fuel as [|fuel IH];
    intros c w b oob n oobn flags addr b' oob' c' w' Hrun; [discriminate|].
  cbn [ReadMsgUDP_loop] in Hrun.
  destruct (ReadMsgUDP nc (uc_PacketConn c) b oob)
    as [[[[[[[n1 oobn1] flags1] addr1] err1] b1] oob1] pc1] eqn:HR.
  destruct err1 as [e|]; [discriminate|].
  cbn [uc_rlimiter uc_with] in Hrun.
  destruct (SplitHostPort (UDPAddr_String addr1)) as [[host port] e] eqn:Hsplit.
  assert (hostKey SplitHostPort (UDPAddr_String addr1) = host) as Hkey
    by (unfold hostKey; now rewrite Hsplit).
  destruct (rl_In (uc_rlimiter c) host) as [l|] eqn:HIn.
  - destruct (limiter.Wait l w n1) as [g w1] eqn:HW.
    destruct (Z.ltb_spec g n1) as [Hlt|Hge].
    + apply IH in Hrun. cbn [uc_rlimiter uc_PacketConn uc_with] in Hrun.
      destruct Hrun as (Hrl & pc0 & w0 & b0 & oob0 & Hskip & Hlast).
      split; [exact Hrl|]. exists pc0, w0, b0, oob0.
      split; [|exact Hlast].
      eapply skippedMsg_next; try eassumption. now rewrite Hkey.
    + injection Hrun as <- <- <- <- <- <- <- <-. split; [reflexivity|].
      exists (uc_PacketConn c), w, b, oob. cbn.
      split; [constructor|]. split; [exact HR|].
      right. exists l, g. rewrite Hkey. auto.
  - injection Hrun as <- <- <- <- <- <- <- <-. split; [reflexivity|].
    exists (uc_PacketConn c), w, b, oob. cbn.
    split; [constructor|]. split; [exact HR|].
    left. rewrite Hkey. auto.
Qed.

Lemma ReadMsgUDP_loop_returns
    (rlimiter : option (limiter.RateLimiter LW)) (pc : P) w b oob
    pc0 w0 b0 oob0 :
  skippedMsg SplitHostPort nc rlimiter pc w b oob pc0 w0 b0 oob0 ->
  forall n oobn flags addr b' oob' pc' w',
  ReadMsgUDP nc pc0 b0 oob0 = (n, oobn, flags, addr, None, b', oob', pc') ->
  admitted rlimiter (hostKey SplitHostPort (UDPAddr_String addr)) n w0 w' ->
  exists fuel,
    ReadMsgUDP_loop SplitHostPort fuel nc
      {| uc_PacketConn := pc; uc_rlimiter := rlimiter |} w b oob
    = Some (n, oobn, flags, addr, None, b', oob',
            {| uc_PacketConn := pc'; uc_rlimiter := rlimiter |}, w').
Proof.
  induction 1
    as [pc w b oob
       |pc w b oob n1 oobn1 flags1 a1 b1 oob1 pc1 l g w1 pc0 w0 b0 oob0
          HR HIn HW Hlt _ IH];
    intros n oobn flags addr b' oob' pc' w' Hlast Hadm.
  - exists 1%nat. cbn [ReadMsgUDP_loop uc_PacketConn]. rewrite Hlast.
    cbn [uc_rlimiter uc_with]. unfold hostKey in Hadm.
    destruct (SplitHostPort (UDPAddr_String addr)) as [[host port] e].
    destruct Hadm as [[HIn ->]|(l & g & HIn & HW & Hge)]; rewrite HIn.
    + reflexivity.
    + rewrite HW. destruct (Z.ltb_spec g n); [lia|reflexivity].
  - destruct (IH _ _ _ _ _ _ _ _ Hlast Hadm) as [fuel Hrun].
    exists (S fuel).
    rewrite (ReadMsgUDP_loop_discards fuel
               {| uc_PacketConn := pc; uc_rlimiter := rlimiter |}
               w b oob n1 oobn1 flags1 a1 b1 oob1 pc1 l g w1 HR HIn HW Hlt).
    exact Hrun.
Qed.

(** X10. [ReadMsgUDP] over a connection that has [udp.ReadUDP] keeps the
    same policy, judged on the payload size [n] alone (the out-of-band
    bytes are not counted): an underlying error is returned at once; a
    message granted in part is skipped; a message returned comes after a
    run of skipped ones, with [n], [oobn] and [flags] as the connection
    gave them, from a host without limiter or with a full grant; and the
    first such message is returned. *)
Theorem ReadMsgUDP_datagram_atomicity :
  as_ReadUDP (P := P) = Some nc ->
  (forall fuel (c : @udpConn LW P) w b oob n oobn flags addr e b1 oob1 pc1,
     ReadMsgUDP nc (uc_PacketConn c) b oob
     = (n, oobn, flags, addr, Some e, b1, oob1, pc1) ->
     udpConn_ReadMsgUDP SplitHostPort (S fuel) c w b oob
     = Some (n, oobn, flags, addr, Some e, b1, oob1, uc_with c pc1, w))
  /\ (forall fuel (c : @udpConn LW P) w b oob n oobn flags addr b1 oob1 pc1
             l granted w1,
        ReadMsgUDP nc (uc_PacketConn c) b oob
        = (n, oobn, flags, addr, None, b1, oob1, pc1) ->
        rl_In (uc_rlimiter c) (hostKey SplitHostPort (UDPAddr_String addr))
        = Some l ->
        limiter.Wait l w n = (granted, w1) ->
        granted < n ->
        udpConn_ReadMsgUDP SplitHostPort (S fuel) c w b oob =
        udpConn_ReadMsgUDP SplitHostPort fuel (uc_with c pc1) w1 b1 oob1)
  /\ (forall fuel (c : @udpConn LW P) w b oob n oobn flags addr b' oob' c' w',
        udpConn_ReadMsgUDP SplitHostPort fuel c w b oob
        = Some (n, oobn, flags, addr, None, b', oob', c', w') ->
        exists pc0 w0 b0 oob0,
          skippedMsg SplitHostPort nc (uc_rlimiter c) (uc_PacketConn c) w b oob
            pc0 w0 b0 oob0
          /\ ReadMsgUDP nc pc0 b0 oob0
             = (n, oobn, flags, addr, None, b', oob', uc_PacketConn c')
          /\ admitted (uc_rlimiter c)
               (hostKey SplitHostPort (UDPAddr_String addr)) n w0 w')
  /\ (forall (c : @udpConn LW P) w b oob pc0 w0 b0 oob0
             n oobn flags addr b' oob' pc' w',
        skippedMsg SplitHostPort nc (uc_rlimiter c) (uc_PacketConn c) w b oob
          pc0 w0 b0 oob0 ->
        ReadMsgUDP nc pc0 b0 oob0
        = (n, oobn, flags, addr, None, b', oob', pc') ->
        admitted (uc_rlimiter c)
          (hostKey SplitHostPort (UDPAddr_String addr)) n w0 w' ->
        exists fuel,
          udpConn_ReadMsgUDP SplitHostPort fuel c w b oob
          = Some (n, oobn, flags, addr, None, b', oob', uc_with c pc', w')).
Proof.
  intros Hcap. unfold udpConn_ReadMsgUDP. rewrite Hcap.
  repeat match goal with |- _ /\ _ => split end.
  - intros fuel c w b oob n oobn flags addr e b1 oob1 pc1 HR.
    cbn [ReadMsgUDP_loop]. now rewrite HR.
  - intros. eapply ReadMsgUDP_loop_discards; eassumption.
  - intros fuel c w b oob n oobn flags addr b' oob' c' w' Hrun.
    apply ReadMsgUDP_loop_admitted in Hrun. apply Hrun.
  - intros [pc rl] w b oob pc0 w0 b0 oob0 n oobn flags addr b' oob' pc' w'
           Hskip Hlast Hadm.
    eapply ReadMsgUDP_loop_returns; eassumption.
Qed.
End UDPReads.

(** ** WrapConn and the reads that follow *)

Section WrapThenRead.
Context {LW : Type} {C : Type} `{NetConn C}.
Variable SplitHostPort : string -> string * string * option error.

(** X11. [WrapConn] with a rate limiter panics when the connection has
    no remote address; otherwise it builds a wrapper over the very
    connection it is given, keyed by the host of its remote address
    (whatever [SplitHostPort] makes of it, its error ignored) and with
    nothing staged; and over that wrapper any run of [Read]s keeps the
    stream intact: the bytes the connection had pending are, in order,
    the chunks delivered, the bytes staged at the end and the bytes
    still pending; the chunks are all of them once limiters and
    connection make progress and the caller has made as many [Read]s
    with non-empty slices as there were bytes. *)
Theorem WrapConn_then_Read (pending : C -> bytes)
    (rl : limiter.RateLimiter LW) (c : C) (w : LW) (bufs : list bytes) :
  Read_in_bounds ->
  delivers_stream pending ->
  (forall host l, limiter.In rl host = Some l -> limiter.within_request l) ->
  (conn_RemoteAddr c = None ->
   WrapConn SplitHostPort (Some rl) c = Panic)
  /\ (forall a,
        conn_RemoteAddr c = Some a ->
        exists s,
          WrapConn SplitHostPort (Some rl) c = Return (Wrapped s)
          /\ sc_Conn s = c
          /\ sc_raddr s = hostKey SplitHostPort (addr_String a)
          /\ sc_rlimiter s = Some rl
          /\ sc_rbuf s = []
          /\ exists chunks s' w',
               Read_calls s w bufs = Return (chunks, s', w')
               /\ pending c
                  = concat chunks ++ sc_rbuf s' ++ pending (sc_Conn s')
               /\ (stream_progress pending ->
                   (forall host l,
                      limiter.In rl host = Some l ->
                      limiter.makes_progress l) ->
                   Forall (fun b => b <> []) bufs ->
                   (List.length (pending c) <= List.length bufs)%nat ->
                   concat chunks = pending c
                   /\ sc_rbuf s' = [] /\ pending (sc_Conn s') = [])).
Proof.
  intros Hb Hstream Hlim. unfold WrapConn, hostKey. split.
  - intros Hnil. now rewrite Hnil.
  - intros a Ha. rewrite Ha.
    destruct (SplitHostPort (addr_String a)) as [[host port] e].
    eexists. split; [reflexivity|]. cbn [sc_Conn sc_raddr sc_rlimiter sc_rbuf].
    do 4 (split; [reflexivity|]).
    match goal with
    | |- context [Read_calls ?s _ _] => set (fresh_wrapper := s)
    end.
    assert (forall l, sc_In fresh_wrapper = Some l -> limiter.within_request l)
      as Hlim'.
    { intros l Hl. unfold sc_In in Hl. cbn in Hl. eapply Hlim. exact Hl. }
    assert (sc_In fresh_wrapper = None -> sc_rbuf fresh_wrapper = [])
      as Hfast by reflexivity.
    destruct (Read_calls_stream pending bufs Hb Hstream fresh_wrapper w
                Hlim' Hfast) as (chunks & s' & w' & HR & Heq).
    exists chunks, s', w'. split; [exact HR|]. split; [exact Heq|].
    intros Hprog Hplim Hne Hlen.
    destruct (Read_calls_drain_stream pending bufs Hb Hstream Hprog
                fresh_wrapper w Hlim') as (chunks1 & s1 & w1 & HR1 & Hall).
    + intros l Hl. unfold sc_In in Hl. cbn in Hl. eapply Hplim. exact Hl.
    + exact Hfast.
    + exact Hne.
    + exact Hlen.
    + rewrite HR in HR1. injection HR1 as <- <- <-. exact Hall.
Qed.
End WrapThenRead.

(** ** Witnesses of the further properties *)

Lemma bareSock_records_sends : records_sends (P := bareSock) outbox.
Proof.
  intros c p addr n err c' HW.
  change (bareSock_WriteTo c p addr = (n, err, c')) in HW.
  unfold bareSock_WriteTo in HW. injection HW as <- <- <-. reflexivity.
Qed.

Lemma WrapConn_then_Read_witness :
  WrapConn SplitHostPort_plain (Some (uniformRateLimiter (capLimiter 5)))
    {| wire := twelve; chop := 8; unnamed := true |} = Panic
  /\ exists s,
       WrapConn SplitHostPort_plain (Some (uniformRateLimiter (capLimiter 5)))
         wire12 = Return (Wrapped s)
       /\ sc_Conn s = wire12
       /\ sc_raddr s = "192.0.2.7"%string
       /\ exists chunks s' w',
            Read_calls s 0%nat (repeat (zeros 4) 12) = Return (chunks, s', w')
            /\ concat chunks = twelve.
Proof.
  split.
  - apply (WrapConn_then_Read SplitHostPort_plain wire
             (uniformRateLimiter (capLimiter 5))
             {| wire := twelve; chop := 8; unnamed := true |} 0%nat []).
    + exact wireConn_Read_in_bounds.
    + exact wireConn_delivers_stream.
    + intros host l Hl. injection Hl as <-.
      apply capLimiter_within_request. lia.
    + reflexivity.
  - destruct (WrapConn_then_Read SplitHostPort_plain wire
                (uniformRateLimiter (capLimiter 5)) wire12 0%nat
                (repeat (zeros 4) 12)) as [_ Hwrap].
    + exact wireConn_Read_in_bounds.
    + exact wireConn_delivers_stream.
    + intros host l Hl. injection Hl as <-.
      apply capLimiter_within_request. lia.
    + destruct (Hwrap (tcp_addr "192.0.2.7:4000") eq_refl)
        as (s & Hs & Hconn & Hkey & _ & _ & chunks & s' & w' & HR & _ & Hall).
      exists s. split; [exact Hs|]. split; [exact Hconn|].
      split; [rewrite Hkey; reflexivity|].
      exists chunks, s', w'. split; [exact HR|].
      apply Hall.
      * exact wireConn_stream_progress.
      * intros host l Hl. injection Hl as <-.
        apply capLimiter_makes_progress. lia.
      * repeat constructor; discriminate.
      * apply Nat.le_refl.
Defined.

Lemma WriteTo_all_or_nothing_witness :
  exists n err c' w',
    packetConn_WriteTo SplitHostPort_plain guarded_packet 0%nat (zeros 10)
      (Some (udp_addr "10.0.0.2:53"))
    = Return (n, err, c', w')
    /\ pc_rlimiter c' = pc_rlimiter guarded_packet
    /\ ((dropped_egress (pc_rlimiter guarded_packet)
           (hostKey SplitHostPort_plain (addr_String (udp_addr "10.0.0.2:53")))
           (len (zeros 10)) 0%nat w'
         /\ outbox (pc_PacketConn c') = outbox (pc_PacketConn guarded_packet)
         /\ n = len (zeros 10) /\ err = None)
        \/ (passes_egress (pc_rlimiter guarded_packet)
              (hostKey SplitHostPort_plain (addr_String (udp_addr "10.0.0.2:53")))
              (len (zeros 10)) 0%nat w'
            /\ outbox (pc_PacketConn c')
               = outbox (pc_PacketConn guarded_packet)
                 ++ [(zeros 10, Some (udp_addr "10.0.0.2:53"))]
            /\ pconn_WriteTo (pc_PacketConn guarded_packet) (zeros 10)
                 (Some (udp_addr "10.0.0.2:53"))
               = (n, err, pc_PacketConn c'))).
Proof.
  apply (proj1 (WriteTo_all_or_nothing (LW := nat) SplitHostPort_plain outbox
                  bareSock_records_sends)).
Defined.

Lemma WriteUDP_all_or_nothing_witness :
  exists w',
    (dropped_egress (uc_rlimiter guarded_usock)
       (hostKey SplitHostPort_plain (UDPAddr_String to_10_0_0_1))
       (len (zeros 10)) 0%nat w'
     /\ udpConn_WriteToUDP SplitHostPort_plain guarded_usock 0%nat (zeros 10)
          to_10_0_0_1
        = (len (zeros 10), None, guarded_usock, w')
     /\ udpConn_WriteMsgUDP SplitHostPort_plain guarded_usock 0%nat (zeros 10)
          (zeros 2) to_10_0_0_1
        = (len (zeros 10), 0, None, guarded_usock, w'))
    \/ (passes_egress (uc_rlimiter guarded_usock)
          (hostKey SplitHostPort_plain (UDPAddr_String to_10_0_0_1))
          (len (zeros 10)) 0%nat w'
        /\ udpConn_WriteToUDP SplitHostPort_plain guarded_usock 0%nat (zeros 10)
             to_10_0_0_1
           = (let '(n, err, pc) :=
                WriteToUDP udpSock_WriteUDP (uc_PacketConn guarded_usock)
                  (zeros 10) to_10_0_0_1 in
              (n, err, uc_with guarded_usock pc, w'))
        /\ udpConn_WriteMsgUDP SplitHostPort_plain guarded_usock 0%nat
             (zeros 10) (zeros 2) to_10_0_0_1
           = (let '(n, oobn, err, pc) :=
                WriteMsgUDP udpSock_WriteUDP (uc_PacketConn guarded_usock)
                  (zeros 10) (zeros 2) to_10_0_0_1 in
              (n, oobn, err, uc_with guarded_usock pc, w'))).
Proof.
  apply (WriteUDP_all_or_nothing (H := udpSock_PacketConn) SplitHostPort_plain
           udpSock_WriteUDP guarded_usock 0%nat (zeros 10) (zeros 2)
           to_10_0_0_1).
  reflexivity.
Defined.

Lemma nil_address_panics_witness :
  packetConn_WriteTo SplitHostPort_plain guarded_packet 0%nat (zeros 10) None
  = Panic.
Proof.
  destruct (nil_address_panics (LW := nat) (P := bareSock) SplitHostPort_plain)
    as (_ & _ & Hwrite & _).
  apply (Hwrite guarded_packet 0%nat (zeros 10) hostile_rl).
  reflexivity.
Defined.

(** The UDP-typed read skips the datagram of the throttled host, too. *)
Example ReadFromUDP_skips_throttled_host :
  match udpConn_ReadFromUDP SplitHostPort_plain 2 guarded_usock 0%nat
          (zeros 200) with
  | Some (n, addr, err, _, c, _) =>
      n = 50 /\ addr = to_10_0_0_2 /\ err = None
      /\ u_inbox (uc_PacketConn c) = []
  | None => False
  end.
Proof. vm_compute. repeat split. Qed.

Lemma ReadFromUDP_datagram_atomicity_witness :
  udpConn_ReadFromUDP SplitHostPort_plain 2 guarded_usock 0%nat (zeros 200)
  = udpConn_ReadFromUDP SplitHostPort_plain 1
      (uc_with guarded_usock (udpSock_pop usock0)) 1%nat (zeros 200).
Proof.
  destruct (ReadFromUDP_datagram_atomicity (LW := nat)
              (H := udpSock_PacketConn) SplitHostPort_plain udpSock_ReadUDP
              eq_refl) as (_ & Hskip & _).
  apply (Hskip 1%nat guarded_usock 0%nat (zeros 200) 100 to_10_0_0_1
           (zeros 200) (udpSock_pop usock0) (capLimiter 0) 0 1%nat).
  - reflexivity.
  - reflexivity.
  - reflexivity.
  - lia.
Defined.

Lemma ReadMsgUDP_datagram_atomicity_witness :
  udpConn_ReadMsgUDP SplitHostPort_plain 2 guarded_usock 0%nat (zeros 200)
    (zeros 8)
  = udpConn_ReadMsgUDP SplitHostPort_plain 1
      (uc_with guarded_usock (udpSock_pop usock0)) 1%nat (zeros 200) (zeros 8).
Proof.
  destruct (ReadMsgUDP_datagram_atomicity (LW := nat)
              (H := udpSock_PacketConn) SplitHostPort_plain udpSock_ReadUDP
              eq_refl) as (_ & Hskip & _).
  apply (Hskip 1%nat guarded_usock 0%nat (zeros 200) (zeros 8) 100 0 0
           to_10_0_0_1 (zeros 200) (zeros 8) (udpSock_pop usock0)
           (capLimiter 0) 0 1%nat).
  - reflexivity.
  - reflexivity.
  - reflexivity.
  - lia.
Defined.

(** ** Package parsing *)

Section ParsingFacts.
Variables Bypass Auther Admission Node NodeGroup Selector SelectorConfig : Type.
Variable BypassRegistry_Get : string -> option Bypass.
Variable AutherRegistry_Get : string -> option Auther.
Variable AdmissionRegistry_Get : string -> option Admission.
Variable BypassGroup : list Bypass -> Bypass.
Variable NewNode : string -> string -> Node.
Variable WithBypass : Node -> Bypass -> Node.
Variable NodeGroup_empty : NodeGroup.
Variable AddNode : NodeGroup -> Node -> NodeGroup.
Variable WithSelector : NodeGroup -> Selector -> NodeGroup.
Variable parseNodeSelector : option SelectorConfig -> option Selector.
Variable defaultNodeSelector : Selector.
Variable TrimSpace : string -> string.

(** Appending the known names one by one gathers [registered]. *)
Lemma gather_registered {A : Type} (get : string -> option A)
    (names : list string) (acc : list A) :
  fold_left
    (fun acc s => match get s with Some x => acc ++ [x] | None => acc end)
    names acc
  = acc ++ registered get names.
Proof.
  revert acc. induction names as [|s names IH]; intros acc; simpl.
  - now rewrite app_nil_r.
  - rewrite IH. destruct (get s); simpl.
    + now rewrite <- app_assoc.
    + reflexivity.
Qed.

Lemma registered_In {A : Type} (get : string -> option A)
    (names : list string) (x : A) :
  In x (registered get names) <-> exists s, In s names /\ get s = Some x.
Proof.
  unfold registered. rewrite in_flat_map. split.
  - intros (s & Hs & Hx). exists s. split; [exact Hs|].
    destruct (get s); simpl in Hx; [|contradiction].
    destruct Hx as [->|[]]. reflexivity.
  - intros (s & Hs & Hx). exists s. split; [exact Hs|].
    rewrite Hx. now left.
Qed.

(** X12. [bypassList], [autherList] and [admissionList] return the
    registry entries of [name] and then of [names], in that order and
    with repetitions, leaving out the names the registry does not know:
    an entry is in the result exactly when one of the names yields it,
    and the result is empty exactly when the registry knows none of
    them. *)
Theorem registry_lists (name : string) (names : list string) :
  bypassList BypassRegistry_Get name names
  = registered BypassRegistry_Get (name :: names)
  /\ autherList AutherRegistry_Get name names
     = registered AutherRegistry_Get (name :: names)
  /\ admissionList AdmissionRegistry_Get name names
     = registered AdmissionRegistry_Get (name :: names)
  /\ (forall bp,
        In bp (bypassList BypassRegistry_Get name names)
        <-> exists s, In s (name :: names) /\ BypassRegistry_Get s = Some bp)
  /\ (autherList AutherRegistry_Get name names = []
      <-> forall s, In s (name :: names) -> AutherRegistry_Get s = None).
Proof.
  assert (forall A (get : string -> option A),
             fold_left
               (fun acc s =>
                  match get s with Some x => acc ++ [x] | None => acc end)
               names
               match get name with Some x => [] ++ [x] | None => [] end
             = registered get (name :: names)) as Hall.
  { intros A get. rewrite gather_registered. simpl.
    destruct (get name); reflexivity. }
  split; [apply Hall|]. split; [apply Hall|]. split; [apply Hall|].
  split.
  - intros bp. unfold bypassList. rewrite Hall. apply registered_In.
  - unfold autherList. rewrite Hall. split.
    + intros Hnil s Hs.
      destruct (AutherRegistry_Get s) as [x|] eqn:Hx; [|reflexivity].
      assert (In x (registered AutherRegistry_Get (name :: names))) as Hin
        by (apply registered_In; eauto).
      rewrite Hnil in Hin. contradiction.
    + intros Hnone.
      destruct (registered AutherRegistry_Get (name :: names)) as [|x rest] eqn:E;
        [reflexivity|].
      assert (In x (registered AutherRegistry_Get (name :: names))) as Hin
        by (rewrite E; now left).
      apply registered_In in Hin. destruct Hin as (s & Hs & Hx).
      rewrite (Hnone s Hs) in Hx. discriminate.
Qed.

Lemma fold_present_nodes (f : ForwardNodeConfig -> Node)
    (nodes : list (option ForwardNodeConfig)) (group : NodeGroup) :
  fold_left
    (fun group node =>
       match node with
       | Some node => AddNode group (f node)
       | None => group
       end)
    nodes group
  = fold_left AddNode (map f (present_nodes nodes)) group.
Proof.
  revert group. induction nodes as [|[n|] nodes IH]; intros group; simpl.
  - reflexivity.
  - apply IH.
  - apply IH.
Qed.

Lemma fold_solid_targets (targets : list string) (group : NodeGroup) :
  fold_left
    (fun group target =>
       if String.eqb (TrimSpace target) EmptyString then group
       else AddNode group (NewNode target target))
    targets group
  = fold_left AddNode
      (map (fun target => NewNode target target) (solid_targets TrimSpace targets))
      group.
Proof.
  revert group. induction targets as [|t targets IH]; intros group; simpl.
  - reflexivity.
  - destruct (String.eqb (TrimSpace t) EmptyString); simpl; apply IH.
Qed.

(** X13. [parseForwarder]: the result is nil exactly for a nil
    configuration or one with neither nodes nor targets; with at least
    one node entry the targets are ignored and the group holds, in
    order, a node for each entry that is not nil (none, if all are nil:
    an empty group, not nil); without node entries the group holds, in
    order, a node for each target that is not blank once trimmed, named
    and addressed by the target as written; the selector is the
    configured one, or the default. *)
Theorem parseForwarder_cases (cfg : ForwarderConfig SelectorConfig) :
  let pf :=
    parseForwarder BypassRegistry_Get BypassGroup NewNode WithBypass
      NodeGroup_empty AddNode WithSelector parseNodeSelector
      defaultNodeSelector TrimSpace in
  let sel :=
    forwarder_selector parseNodeSelector defaultNodeSelector cfg in
  let node :=
    forward_node BypassRegistry_Get BypassGroup NewNode WithBypass in
  pf None = None
  /\ (pf (Some cfg) = None <-> fc_Targets cfg = [] /\ fc_Nodes cfg = [])
  /\ (fc_Nodes cfg <> [] ->
      pf (Some cfg)
      = Some (WithSelector
                (fold_left AddNode (map node (present_nodes (fc_Nodes cfg)))
                   NodeGroup_empty)
                sel))
  /\ (fc_Nodes cfg = [] -> fc_Targets cfg <> [] ->
      pf (Some cfg)
      = Some (WithSelector
                (fold_left AddNode
                   (map (fun target => NewNode target target)
                      (solid_targets TrimSpace (fc_Targets cfg)))
                   NodeGroup_empty)
                sel)).
Proof.
  intros pf sel node. subst pf sel node.
  unfold parseForwarder, forwarder_selector.
  assert (forall A (l : list A), (len l =? 0) = true <-> l = []) as Hlen.
  { intros A l. rewrite Z.eqb_eq. apply len_nil_iff. }
  assert (forall A (l : list A), l <> [] -> (0 <? len l) = true) as Hpos.
  { intros A l Hne. apply Z.ltb_lt. pose proof (len_nonneg l).
    destruct (Z.eq_dec (len l) 0) as [E|]; [|lia].
    apply len_nil_iff in E. contradiction. }
  split; [reflexivity|]. split; [|split].
  - destruct (len (fc_Targets cfg) =? 0) eqn:Et;
      destruct (len (fc_Nodes cfg) =? 0) eqn:En; simpl.
    + split; [intros _|reflexivity]. split; now apply Hlen.
    + split; [discriminate|]. intros [_ Hn]. apply Hlen in Hn. congruence.
    + split; [discriminate|]. intros [Ht _]. apply Hlen in Ht. congruence.
    + split; [discriminate|]. intros [Ht _]. apply Hlen in Ht. congruence.
  - intros Hn.
    assert ((len (fc_Nodes cfg) =? 0) = false) as ->.
    { destruct (len (fc_Nodes cfg) =? 0) eqn:E; [|reflexivity].
      apply Hlen in E. contradiction. }
    rewrite andb_false_r, (Hpos _ _ Hn), fold_present_nodes. reflexivity.
  - intros Hn Ht.
    assert ((len (fc_Targets cfg) =? 0) = false) as ->.
    { destruct (len (fc_Targets cfg) =? 0) eqn:E; [|reflexivity].
      apply Hlen in E. contradiction. }
    rewrite Hn. simpl. rewrite fold_solid_targets. reflexivity.
Qed.
End ParsingFacts.

Lemma parseForwarder_cases_witness :
  parseForwarder (Node := string * string * list string)
    (NodeGroup := list (string * string * list string) * string)
    demo_bypasses (String.concat EmptyString)
    (fun name addr => (name, addr, []))
    (fun node bypass => (fst (fst node), snd (fst node), [bypass]))
    ([], EmptyString) (fun group node => (fst group ++ [node], snd group))
    (fun group sel => (fst group, sel))
    (fun _ : option unit => None) "round-robin"%string (fun s => s)
    (Some demo_forwarder)
  = Some ([("a"%string, "10.0.0.1:80"%string, ["lanvpn"%string])],
          "round-robin"%string).
Proof.
  destruct (parseForwarder_cases string (string * string * list string)
              (list (string * string * list string) * string) string unit
              demo_bypasses (String.concat EmptyString)
              (fun name addr => (name, addr, []))
              (fun node bypass => (fst (fst node), snd (fst node), [bypass]))
              ([], EmptyString)
              (fun group node => (fst group ++ [node], snd group))
              (fun group sel => (fst group, sel))
              (fun _ : option unit => None) "round-robin"%string (fun s => s)
              demo_forwarder) as (_ & _ & Hnodes & _).
  rewrite Hnodes by discriminate. reflexivity.
Defined.
